(** * scripts/template-processor.py: the template engine, embedded and verified

    The script rewrites a template string in four passes, each a call (or
    three calls) of Python's [re.sub] with a replacement callback that looks
    the captured name up in a dictionary.  This file embeds

    - the fragment of Python's backtracking regular expressions the four
      patterns are written in (literals, character classes, greedy and lazy
      repetition of a class, capture groups, back-references) and the
      [re.sub] loop, in module [Re];
    - the four patterns, the four callbacks and [process_template];
    - [load_variables_from_env] with [str.isupper];
    - [main], as the calls it makes to the library and the way it ends.

    A Python [str] is modelled by a Rocq [string] whose characters are the
    code points below 256; the character tables ([\w], upper, lower and
    title case) are Python's, read on that range. *)

From Stdlib Require Import Ascii.
From stdpp Require Import base strings gmap.

Local Open Scope char_scope.
Local Open Scope stdpp_scope.

(** ** Strings *)

(** [strip_prefix p s] is [Some rest] when [s = p +:+ rest]. *)
Fixpoint strip_prefix (p s : string) : option string :=
  match p with
  | EmptyString => Some s
  | String a p' =>
      match s with
      | String b s' => if Ascii.eqb a b then strip_prefix p' s' else None
      | EmptyString => None
      end
  end.

Definition is_empty (s : string) : bool :=
  match s with EmptyString => true | String _ _ => false end.

(** Code point of a character, and interval tests on it. *)
Definition code (c : ascii) : N := N_of_ascii c.

Definition between (lo hi : N) (c : ascii) : bool :=
  (lo <=? code c)%N && (code c <=? hi)%N.

Module Re.

(** ** The regular expressions of the script

    Repetition is only ever applied to a character class in the source
    ([\w+], [.*?], [[^}]+]), so [Repeat] takes a class. *)
Inductive regex : Type :=
| Eps
| Lit (c : ascii)
| Class (p : ascii → bool)
| Repeat (greedy : bool) (lo : nat) (p : ascii → bool)
| Group (n : nat) (r : regex)
| Backref (n : nat)
| Seq (r1 r2 : regex).

(** A run of literal characters. *)
Fixpoint lits (s : string) : regex :=
  match s with
  | EmptyString => Eps
  | String c s' => Seq (Lit c) (lits s')
  end.

(** [\w] on a [str] pattern: the alphanumeric characters and the
    underscore.  Below 256 these are the ASCII letters and digits, [_], and
    in the Latin-1 block the letters, the superscript digits and the
    fractions. *)
Definition is_word (c : ascii) : bool :=
  between 48 57 c || between 65 90 c || between 97 122 c
  || Ascii.eqb c "_"
  || N.eqb (code c) 170 || between 178 179 c || N.eqb (code c) 181
  || between 185 186 c || between 188 190 c
  || between 192 214 c || between 216 246 c || between 248 255 c.

(** [.]: every character but the newline, every character under
    [re.DOTALL]. *)
Definition dot (dotall : bool) (c : ascii) : bool :=
  dotall || negb (Ascii.eqb c "010").

(** [[^x]]: every character but [x] (the newline included). *)
Definition not_char (x : ascii) (c : ascii) : bool := negb (Ascii.eqb c x).

(** The groups captured so far. *)
Abbreviation groups := (gmap nat string).

(** A match object: the text matched and the groups that took part. *)
Record Match : Type := MkMatch { m_whole : string; m_groups : groups }.

(** [match.group(n)]. *)
Definition group (m : Match) (n : nat) : string :=
  match n with
  | O => m_whole m
  | S _ => default "" (m_groups m !! n)
  end.

(** ** The backtracking matcher

    Continuation passing: [k matched rest g] is the rest of the pattern,
    called with the text just matched, the input left and the groups; an
    answer [None] makes the matcher try its next alternative. *)
Section Matcher.
Context {R : Type}.

(** [p{lo,}]: as many characters as possible first. *)
Fixpoint rep_greedy (p : ascii → bool) (lo : nat) (s : string)
    (k : string → string → option R) : option R :=
  let stop := match lo with O => k "" s | S _ => None end in
  match s with
  | String c s' =>
      if p c then
        match rep_greedy p (pred lo) s' (λ m rest, k (String c m) rest) with
        | Some r => Some r
        | None => stop
        end
      else stop
  | EmptyString => stop
  end.

(** [p{lo,}?]: as few characters as possible first. *)
Fixpoint rep_lazy (p : ascii → bool) (lo : nat) (s : string)
    (k : string → string → option R) : option R :=
  match (match lo with O => k "" s | S _ => None end) with
  | Some r => Some r
  | None =>
      match s with
      | String c s' =>
          if p c
          then rep_lazy p (pred lo) s' (λ m rest, k (String c m) rest)
          else None
      | EmptyString => None
      end
  end.

Fixpoint mt (r : regex) (s : string) (g : groups)
    (k : string → string → groups → option R) : option R :=
  match r with
  | Eps => k "" s g
  | Lit c =>
      match s with
      | String c' s' => if Ascii.eqb c c' then k (String c' "") s' g else None
      | EmptyString => None
      end
  | Class p =>
      match s with
      | String c' s' => if p c' then k (String c' "") s' g else None
      | EmptyString => None
      end
  | Repeat greedy lo p =>
      (if greedy then rep_greedy else rep_lazy) p lo s (λ m rest, k m rest g)
  | Group n r' => mt r' s g (λ m rest g', k m rest (<[n:=m]> g'))
  | Backref n =>
      match g !! n with
      | Some t =>
          match strip_prefix t s with
          | Some rest => k t rest g
          | None => None
          end
      | None => None
      end
  | Seq r1 r2 =>
      mt r1 s g (λ m1 rest1 g1,
        mt r2 rest1 g1 (λ m2 rest2 g2, k (m1 +:+ m2) rest2 g2))
  end.
End Matcher.

(** A match of [r] at the head of [s].  With [must_advance] an empty match
    is refused (the engine then backtracks), as after an empty match at the
    same position. *)
Definition match_at (r : regex) (s : string) (must_advance : bool)
    : option (Match * string) :=
  mt r s ∅ (λ m rest g,
    if must_advance && is_empty m then None else Some (MkMatch m g, rest)).

(** The leftmost match in [s]: the text before it, the match, the text
    after it.  [must_advance] only concerns the first position. *)
Fixpoint search (r : regex) (s : string) (must_advance : bool)
    : option (string * Match * string) :=
  match match_at r s must_advance with
  | Some (m, rest) => Some ("", m, rest)
  | None =>
      match s with
      | EmptyString => None
      | String c s' =>
          match search r s' false with
          | Some (pre, m, rest) => Some (String c pre, m, rest)
          | None => None
          end
      end
  end.

(** The loop of [re.sub(pattern, repl, string)] with a callable [repl]:
    copy the text up to the next match, append what [repl] returns, go on
    after the match; when nothing matches any more, copy what is left. *)
Fixpoint sub_loop (fuel : nat) (r : regex) (repl : Match → string)
    (s : string) (must_advance : bool) : string :=
  match fuel with
  | O => s
  | S fuel' =>
      match search r s must_advance with
      | None => s
      | Some (pre, m, rest) =>
          pre +:+ repl m +:+ sub_loop fuel' r repl rest (is_empty (m_whole m))
      end
  end.

(** Every round either shortens the input or turns [must_advance] on, so
    [2 * length s + 2] rounds are never used up ([sub_loop_fuel] below). *)
Definition sub_from (r : regex) (repl : Match → string) (s : string)
    (must_advance : bool) : string :=
  sub_loop (2 * String.length s + 2) r repl s must_advance.

Definition sub (r : regex) (repl : Match → string) (s : string) : string :=
  sub_from r repl s false.

End Re.

Import Re.

Infix "+++" := Seq (at level 60, right associativity).

(** ** The template engine *)

(** [variables.get(name, dflt)]. *)
Definition dict_get (variables : gmap string string) (name dflt : string) : string :=
  default dflt (variables !! name).

(** Truth value of a [str]: the empty string is false. *)
Definition truthy (v : string) : bool := negb (is_empty v).

(** [r'\{\{#(\w+)\}\}(.*?)\{\{/\1\}\}'] and, with [^] for [#], the pattern of
    the inverted blocks; both are used with [flags=re.DOTALL]. *)
Definition block_pattern (sigil : ascii) : regex :=
  lits (String "{" (String "{" (String sigil "")))
  +++ Group 1 (Repeat true 1 is_word) +++ lits "}}"
  +++ Group 2 (Repeat false 0 (dot true))
  +++ lits "{{/" +++ Backref 1 +++ lits "}}".

Definition conditional_pattern : regex := block_pattern "#".
Definition inverted_pattern : regex := block_pattern "^".

(** [r'\{\{(\w+)\|default:([^}]+)\}\}']. *)
Definition default_pattern : regex :=
  lits "{{" +++ Group 1 (Repeat true 1 is_word) +++ lits "|default:"
  +++ Group 2 (Repeat true 1 (not_char "}")) +++ lits "}}".

(** [r'\{\{(\w+)\}\}']. *)
Definition simple_pattern : regex :=
  lits "{{" +++ Group 1 (Repeat true 1 is_word) +++ lits "}}".

Definition replace_conditional (variables : gmap string string) (m : Match) : string :=
  let var_name := group m 1 in
  let content := group m 2 in
  let var_value := dict_get variables var_name "" in
  if truthy var_value then content else "".

Definition replace_inverted_conditional (variables : gmap string string) (m : Match) : string :=
  let var_name := group m 1 in
  let content := group m 2 in
  let var_value := dict_get variables var_name "" in
  if negb (truthy var_value) then content else "".

Definition replace_with_default (variables : gmap string string) (m : Match) : string :=
  let var_name := group m 1 in
  let default_value := group m 2 in
  dict_get variables var_name default_value.

Definition replace_simple (variables : gmap string string) (m : Match) : string :=
  let var_name := group m 1 in
  dict_get variables var_name "".

(** One sweep of each conditional pass, and the two remaining passes. *)
Definition sweep_conditional (variables : gmap string string) (s : string) : string :=
  sub conditional_pattern (replace_conditional variables) s.

Definition sweep_inverted (variables : gmap string string) (s : string) : string :=
  sub inverted_pattern (replace_inverted_conditional variables) s.

Definition pass_default (variables : gmap string string) (s : string) : string :=
  sub default_pattern (replace_with_default variables) s.

Definition pass_simple (variables : gmap string string) (s : string) : string :=
  sub simple_pattern (replace_simple variables) s.

(** [for _ in range(3): result = re.sub(...)]. *)
Definition pass_conditional (variables : gmap string string) (s : string) : string :=
  Nat.iter 3 (sweep_conditional variables) s.

Definition pass_inverted (variables : gmap string string) (s : string) : string :=
  Nat.iter 3 (sweep_inverted variables) s.

Definition process_template (template_content : string)
    (variables : gmap string string) : string :=
  let result := template_content in
  let result := pass_conditional variables result in
  let result := pass_inverted variables result in
  let result := pass_default variables result in
  let result := pass_simple variables result in
  result.

(** ** The engine with its failures written out

    Two things could keep [process_template] from returning a string:
    [match.group(n)] gives no string when group [n] took no part in the
    match, and the loop of [re.sub] is run here for a bounded number of
    rounds.  The definitions below are the engine again with both written as
    [None]; [process_template_checked_total] shows that neither happens. *)

Definition group_checked (m : Match) (n : nat) : option string :=
  match n with
  | O => Some (m_whole m)
  | S _ => m_groups m !! n
  end.

Definition replace_conditional_checked (variables : gmap string string)
    (m : Match) : option string :=
  var_name ← group_checked m 1;
  content ← group_checked m 2;
  let var_value := dict_get variables var_name "" in
  Some (if truthy var_value then content else "").

Definition replace_inverted_conditional_checked (variables : gmap string string)
    (m : Match) : option string :=
  var_name ← group_checked m 1;
  content ← group_checked m 2;
  let var_value := dict_get variables var_name "" in
  Some (if negb (truthy var_value) then content else "").

Definition replace_with_default_checked (variables : gmap string string)
    (m : Match) : option string :=
  var_name ← group_checked m 1;
  default_value ← group_checked m 2;
  Some (dict_get variables var_name default_value).

Definition replace_simple_checked (variables : gmap string string)
    (m : Match) : option string :=
  var_name ← group_checked m 1;
  Some (dict_get variables var_name "").

Fixpoint sub_loop_checked (fuel : nat) (r : regex) (repl : Match → option string)
    (s : string) (must_advance : bool) : option string :=
  match fuel with
  | O => None
  | S fuel' =>
      match search r s must_advance with
      | None => Some s
      | Some (pre, m, rest) =>
          out ← repl m;
          tail ← sub_loop_checked fuel' r repl rest (is_empty (m_whole m));
          Some (pre +:+ out +:+ tail)
      end
  end.

Definition sub_checked (r : regex) (repl : Match → option string) (s : string)
    : option string :=
  sub_loop_checked (2 * String.length s + 2) r repl s false.

Definition process_template_checked (template_content : string)
    (variables : gmap string string) : option string :=
  let conditional := sub_checked conditional_pattern
                       (replace_conditional_checked variables) in
  let inverted := sub_checked inverted_pattern
                    (replace_inverted_conditional_checked variables) in
  result ← Some template_content;
  result ← conditional result;
  result ← conditional result;
  result ← conditional result;
  result ← inverted result;
  result ← inverted result;
  result ← inverted result;
  result ← sub_checked default_pattern (replace_with_default_checked variables) result;
  result ← sub_checked simple_pattern (replace_simple_checked variables) result;
  Some result.

(** ** The environment *)

(** [str.isupper] on a character: the upper-case letters below 256, and the
    lower-case ones ([str.islower]). *)
Definition is_upper_char (c : ascii) : bool :=
  between 65 90 c || between 192 214 c || between 216 222 c.

Definition is_lower_char (c : ascii) : bool :=
  between 97 122 c || N.eqb (code c) 170 || N.eqb (code c) 181
  || N.eqb (code c) 186 || between 223 246 c || between 248 255 c.

(** The title-case letters, by code point: the four digraphs U+01C5, U+01C8,
    U+01CB and U+01F2, and the Greek capitals with prosgegrammeni in
    U+1F88..U+1FFC. *)
Definition is_title_point (n : N) : bool :=
  N.eqb n 453 || N.eqb n 456 || N.eqb n 459 || N.eqb n 498
  || (8072 <=? n)%N && (n <=? 8079)%N
  || (8088 <=? n)%N && (n <=? 8095)%N
  || (8104 <=? n)%N && (n <=? 8111)%N
  || N.eqb n 8124 || N.eqb n 8140 || N.eqb n 8188.

Definition is_title_char (c : ascii) : bool := is_title_point (code c).

(** The loop of [str.isupper]: a lower-case or title-case character answers
    [False] at once; otherwise the answer is whether an upper-case character
    was seen. *)
Fixpoint isupper_loop (s : string) (cased : bool) : bool :=
  match s with
  | EmptyString => cased
  | String ch s' =>
      if is_lower_char ch || is_title_char ch then false
      else isupper_loop s' (cased || is_upper_char ch)
  end.

Definition isupper (s : string) : bool := isupper_loop s false.

(** [{k: v for k, v in os.environ.items() if k.isupper()}], the process
    environment being a dictionary from names to values. *)
Definition load_variables_from_env (environ : gmap string string)
    : gmap string string :=
  filter (λ kv, isupper kv.1 = true) environ.

(** ** The command line

    [main] reads [sys.argv], opens and reads a file, reads [os.environ] and
    calls [print].  What the library answers to these calls is given to
    the model as arguments; the model gives back what the script itself does:
    the calls of [print] it makes, in order, and the way [main] ends.  What
    the interpreter does after that (the traceback and the exit status of an
    exception nobody caught, the flush of the streams at exit) is not part of
    the script and is not modelled. *)

(** The exceptions [main] can meet: the one it handles, and any other, by
    name. *)
Inductive exception : Type :=
| FileNotFoundError
| OtherException (name : string).

(** The answer of a library call: a value, or an exception. *)
Inductive answer (A : Type) : Type :=
| Returns (a : A)
| Raises (e : exception).

Arguments Returns {A} a.
Arguments Raises {A} e.

(** The [file] argument of [print]: [sys.stdout], when it is left out, or
    [sys.stderr]. *)
Inductive stream : Type := Stdout | Stderr.

(** The way [main] ends: it returns, [sys.exit] raises [SystemExit] with a
    status, or an exception leaves it. *)
Inductive ending : Type :=
| Returned
| SystemExit (status : nat)
| Raised (e : exception).

(** The calls of [print], each with the stream named and the text to write,
    and the ending. *)
Definition outcome : Type := list (stream * string) * ending.

Definition newline : string := String "010" "".
Definition carriage_return : ascii := "013".

(** The text mode of [open(path, 'r')]: with [newline=None] the line ends
    [\r\n] and [\r] of the decoded text are read as [\n].  [pending_cr]
    tells that the character before was a carriage return, already
    translated. *)
Fixpoint translate_newlines (s : string) (pending_cr : bool) : string :=
  match s with
  | EmptyString => ""
  | String c s' =>
      if Ascii.eqb c carriage_return then String "010" (translate_newlines s' true)
      else if Ascii.eqb c "010" && pending_cr then translate_newlines s' false
      else String c (translate_newlines s' false)
  end.

Definition universal_newlines (s : string) : string := translate_newlines s false.

(** [print(text, end=end_, file=file)] followed by the rest of the run
    [next]: when [print] raises, the exception leaves [main] at once. *)
Definition print_then (print : stream → string → answer unit)
    (file : stream) (text end_ : string) (next : outcome) : outcome :=
  match print file (text +:+ end_) with
  | Returns _ => ((file, text +:+ end_) :: next.1, next.2)
  | Raises e => ([(file, text +:+ end_)], Raised e)
  end.

(** [open_read path] stands for [with open(path, 'r') as f: f.read()] up to
    the translation of line ends: it answers the decoded text of the file, or
    the exception raised on the way (by [open], by the decoder, on closing).
    [print file text] is the answer of [print] asked to write [text] to
    [file]. *)
Definition main (argv : list string) (open_read : string → answer string)
    (environ : gmap string string) (print : stream → string → answer unit)
    : outcome :=
  if (length argv <? 2)%nat then
    print_then print Stderr "Usage: template-processor.py <template-file>" newline
      ([], SystemExit 1)
  else
    match argv !! 1 with
    | None => ([], Raised (OtherException "IndexError"))
    | Some template_file =>
        match open_read template_file with
        | Returns decoded =>
            let template_content := universal_newlines decoded in
            let variables := load_variables_from_env environ in
            let result := process_template template_content variables in
            print_then print Stdout result "" ([], Returned)
        | Raises FileNotFoundError =>
            print_then print Stderr
              ("Error: Template file not found: " +:+ template_file) newline
              ([], SystemExit 1)
        | Raises e => ([], Raised e)
        end
    end.

(** ** What the patterns match, in the words of the specification

    The definitions below do not come from the script: they state directly
    which text each pattern matches, and are proved equal to the matcher run
    on the script's patterns. *)

(** The longest prefix of [s] made of characters of the class [p], and what
    follows it. *)
Fixpoint span (p : ascii → bool) (s : string) : string * string :=
  match s with
  | EmptyString => ("", "")
  | String c s' =>
      if p c then let '(w, rest) := span p s' in (String c w, rest)
      else ("", s)
  end.

(** The first occurrence of [needle] in [s]: the text before it and the text
    after it. *)
Fixpoint find_first (needle s : string) : option (string * string) :=
  match strip_prefix needle s with
  | Some post => Some ("", post)
  | None =>
      match s with
      | EmptyString => None
      | String c s' =>
          match find_first needle s' with
          | Some (pre, post) => Some (String c pre, post)
          | None => None
          end
      end
  end.

Definition contains (needle s : string) : bool :=
  match find_first needle s with Some _ => true | None => false end.

(** Every character of [s] is of the class [p]. *)
Fixpoint all_chars (p : ascii → bool) (s : string) : bool :=
  match s with
  | EmptyString => true
  | String c s' => p c && all_chars p s'
  end.

(** Some character of [s] is of the class [p]. *)
Fixpoint any_char (p : ascii → bool) (s : string) : bool :=
  match s with
  | EmptyString => false
  | String c s' => p c || any_char p s'
  end.

(** A name: one or more word characters. *)
Definition is_name (s : string) : bool := negb (is_empty s) && all_chars is_word s.

(** The tags of a block, written out. *)
Definition open_tag (sigil : ascii) (name : string) : string :=
  String "{" (String "{" (String sigil "")) +:+ name +:+ "}}".

Definition close_tag (name : string) : string := "{{/" +:+ name +:+ "}}".

(** A block at the head of [s]: an opening tag, the shortest content up to
    the first closing tag of the same name, and the text after it. *)
Definition parse_block (sigil : ascii) (s : string)
    : option (string * string * string) :=
  match strip_prefix (String "{" (String "{" (String sigil ""))) s with
  | Some s1 =>
      let '(name, s2) := span is_word s1 in
      if is_empty name then None
      else
        match strip_prefix "}}" s2 with
        | Some s3 =>
            match find_first (close_tag name) s3 with
            | Some (content, post) => Some (name, content, post)
            | None => None
            end
        | None => None
        end
  | None => None
  end.

(** [{{NAME|default:DEFAULT}}] at the head of [s]. *)
Definition parse_default (s : string) : option (string * string * string) :=
  match strip_prefix "{{" s with
  | Some s1 =>
      let '(name, s2) := span is_word s1 in
      if is_empty name then None
      else
        match strip_prefix "|default:" s2 with
        | Some s3 =>
            let '(dflt, s4) := span (not_char "}") s3 in
            if is_empty dflt then None
            else
              match strip_prefix "}}" s4 with
              | Some post => Some (name, dflt, post)
              | None => None
              end
        | None => None
        end
  | None => None
  end.

(** [{{NAME}}] at the head of [s]. *)
Definition parse_simple (s : string) : option (string * string) :=
  match strip_prefix "{{" s with
  | Some s1 =>
      let '(name, s2) := span is_word s1 in
      if is_empty name then None
      else
        match strip_prefix "}}" s2 with
        | Some post => Some (name, post)
        | None => None
        end
  | None => None
  end.

(** A markup token [{{...}}]: two opening braces with two closing braces
    somewhere after them. *)
Fixpoint has_token (s : string) : bool :=
  match s with
  | EmptyString => false
  | String _ s' =>
      match strip_prefix "{{" s with
      | Some rest => contains "}}" rest || has_token s'
      | None => has_token s'
      end
  end.

(** Positive blocks nested in one another, outermost name first. *)
Fixpoint nest (names : list string) (body : string) : string :=
  match names with
  | [] => body
  | name :: names' => open_tag "#" name +:+ nest names' body +:+ close_tag name
  end.

(** ** Notions the statements are written with *)

(** The measure of the loop of [re.sub]: it decreases at every round. *)
Definition rounds (s : string) (must_advance : bool) : nat :=
  2 * String.length s + (if must_advance then 0 else 1).

(** The match objects the patterns produce: the tag text and the groups. *)
Definition block_match (sigil : ascii) (name content : string) : Match :=
  MkMatch (open_tag sigil name +:+ content +:+ close_tag name)
          (<[2:=content]> (<[1:=name]> ∅)).

Definition default_match (name dflt : string) : Match :=
  MkMatch ("{{" +:+ name +:+ "|default:" +:+ dflt +:+ "}}")
          (<[2:=dflt]> (<[1:=name]> ∅)).

Definition simple_match (name : string) : Match :=
  MkMatch ("{{" +:+ name +:+ "}}") (<[1:=name]> ∅).

(** A pattern whose every match starts a markup token. *)
Definition matches_tokens (r : regex) : Prop :=
  ∀ s m rest, match_at r s false = Some (m, rest) →
    (∃ x y, s = "{{" +:+ x +:+ "}}" +:+ y) ∧ is_empty (m_whole m) = false.

(** Lists of names, for nested blocks. *)
Definition valid_names (names : list string) : Prop :=
  Forall (λ m, is_name m = true) names.

Definition truthy_names (variables : gmap string string)
    (names : list string) : Prop :=
  Forall (λ m, truthy (dict_get variables m "") = true) names.

(** No match of [r] starts anywhere in [s]. *)
Fixpoint nowhere (r : regex) (s : string) : bool :=
  match match_at r s false with
  | Some _ => false
  | None =>
      match s with
      | EmptyString => true
      | String _ s' => nowhere r s'
      end
  end.

(** No pattern of the four passes matches anywhere in [s]. *)
Definition unmatched (s : string) : bool :=
  nowhere conditional_pattern s && nowhere inverted_pattern s
  && nowhere default_pattern s && nowhere simple_pattern s.

(** What nested positive blocks are meant to give: the body when every name
    is present and non-empty, nothing otherwise. *)
Fixpoint resolve (variables : gmap string string) (names : list string)
    (body : string) : string :=
  match names with
  | [] => body
  | name :: names' =>
      if truthy (dict_get variables name "")
      then resolve variables names' body
      else ""
  end.

(** Inverted blocks nested in one another, and what they are meant to give:
    the body when every name is absent or empty, nothing otherwise. *)
Fixpoint nest_inverted (names : list string) (body : string) : string :=
  match names with
  | [] => body
  | name :: names' =>
      open_tag "^" name +:+ nest_inverted names' body +:+ close_tag name
  end.

Definition falsy_names (variables : gmap string string)
    (names : list string) : Prop :=
  Forall (λ m, truthy (dict_get variables m "") = false) names.

Fixpoint resolve_inverted (variables : gmap string string) (names : list string)
    (body : string) : string :=
  match names with
  | [] => body
  | name :: names' =>
      if truthy (dict_get variables name "")
      then ""
      else resolve_inverted variables names' body
  end.

(** A defaulted variable left open at the end of [s]: [{{NAME|default:] and
    then no closing brace up to the end. *)
Definition open_default (s : string) : bool :=
  match strip_prefix "{{" s with
  | Some s1 =>
      let '(name, s2) := span is_word s1 in
      if is_empty name then false
      else
        match strip_prefix "|default:" s2 with
        | Some s3 => all_chars (not_char "}") s3
        | None => false
        end
  | None => false
  end.

(** Somewhere in [s] a defaulted variable is opened and left open. *)
Fixpoint dangling_default (s : string) : bool :=
  open_default s
  || match s with
     | EmptyString => false
     | String _ s' => dangling_default s'
     end.

(** The text after a match, when more text follows the input. *)
Definition followed_by {A : Type} (t : string) (res : option (A * string))
    : option (A * string) :=
  match res with
  | Some (a, rest) => Some (a, rest +:+ t)
  | None => None
  end.

(** A block opened at the head of [s] and left open: an opening tag with
    no closing tag of its name in the rest of [s]. *)
Definition open_block (sigil : ascii) (s : string) : bool :=
  match strip_prefix (String "{" (String "{" (String sigil ""))) s with
  | Some s1 =>
      let '(name, s2) := span is_word s1 in
      if is_empty name then false
      else
        match strip_prefix "}}" s2 with
        | Some s3 => negb (contains (close_tag name) s3)
        | None => false
        end
  | None => false
  end.

(** Somewhere in [s] a block is opened and left open. *)
Fixpoint dangling_block (sigil : ascii) (s : string) : bool :=
  open_block sigil s
  || match s with
     | EmptyString => false
     | String _ s' => dangling_block sigil s'
     end.

(** Nothing is left open at the end of [pre] at any step of the engine: no
    positive block before any of the three positive sweeps, no inverted block
    before any of the three inverted sweeps, no defaulted variable before
    the pass of the defaulted variables. *)
Definition settled (variables : gmap string string) (pre : string) : bool :=
  let p1 := sweep_conditional variables pre in
  let p2 := sweep_conditional variables p1 in
  let p3 := sweep_conditional variables p2 in
  let q1 := sweep_inverted variables p3 in
  let q2 := sweep_inverted variables q1 in
  let q3 := sweep_inverted variables q2 in
  negb (dangling_block "#" pre) && negb (dangling_block "#" p1)
  && negb (dangling_block "#" p2)
  && negb (dangling_block "^" p3) && negb (dangling_block "^" q1)
  && negb (dangling_block "^" q2)
  && negb (dangling_default q3).

(** ** Strings: append and prefixes *)

Lemma append_nil_l (s : string) : "" +:+ s = s.
Proof. reflexivity. Qed.

Lemma append_cons (c : ascii) (a b : string) : String c a +:+ b = String c (a +:+ b).
Proof. reflexivity. Qed.

Lemma append_nil_r (s : string) : s +:+ "" = s.
Proof. induction s as [|c s IH]; [reflexivity|]. by rewrite append_cons, IH. Qed.

Lemma append_assoc (a b c : string) : (a +:+ b) +:+ c = a +:+ (b +:+ c).
Proof. induction a as [|x a IH]; [reflexivity|]. by rewrite !append_cons, IH. Qed.

Lemma append_length (a b : string) :
  String.length (a +:+ b) = String.length a + String.length b.
Proof. induction a as [|x a IH]; [reflexivity|]. rewrite append_cons. simpl. by rewrite IH. Qed.

Lemma ascii_eqb_true (a b : ascii) : Ascii.eqb a b = true → a = b.
Proof. apply Ascii.eqb_eq. Qed.

Lemma strip_prefix_Some (p s rest : string) :
  strip_prefix p s = Some rest ↔ s = p +:+ rest.
Proof.
  revert s. induction p as [|a p IH]; intros s; simpl.
  - rewrite append_nil_l. split; congruence.
  - rewrite append_cons. destruct s as [|b s]; [split; discriminate|].
    destruct (Ascii.eqb a b) eqn:E.
    + apply ascii_eqb_true in E as ->. rewrite IH. split; congruence.
    + split; [discriminate|]. intros [= -> _]. by rewrite Ascii.eqb_refl in E.
Qed.

Lemma strip_prefix_app_same (p rest : string) : strip_prefix p (p +:+ rest) = Some rest.
Proof. by apply strip_prefix_Some. Qed.

Lemma strip_prefix_app (a b s : string) :
  strip_prefix (a +:+ b) s =
  match strip_prefix a s with Some s' => strip_prefix b s' | None => None end.
Proof.
  revert s. induction a as [|x a IH]; intros s; [reflexivity|].
  rewrite append_cons. simpl. destruct s as [|y s]; [reflexivity|].
  destruct (Ascii.eqb x y); [apply IH | reflexivity].
Qed.

(** ** The matcher only answers through its continuation

    Whatever the matcher returns was returned by the continuation, called on
    a split of the input into the text matched and the text left. *)
Section Soundness.
Context {R : Type}.

Lemma rep_greedy_sound p lo s (k : string → string → option R) x :
  rep_greedy p lo s k = Some x →
  ∃ m rest, s = m +:+ rest ∧ k m rest = Some x.
Proof.
  revert lo k. induction s as [|c s IH]; intros lo k H; simpl in H.
  - destruct lo; [|discriminate]. by exists "", "".
  - assert (Hstop : match lo with O => k "" (String c s) | S _ => None end = Some x →
                    ∃ m rest, String c s = m +:+ rest ∧ k m rest = Some x).
    { destruct lo; [|discriminate]. intros Hk. by exists "", (String c s). }
    destruct (p c); [|by apply Hstop].
    destruct (rep_greedy p (pred lo) s _) as [y|] eqn:E; [|by apply Hstop].
    injection H as ->. apply IH in E as (m & rest & -> & Hk).
    by exists (String c m), rest.
Qed.

Lemma rep_lazy_sound p lo s (k : string → string → option R) x :
  rep_lazy p lo s k = Some x →
  ∃ m rest, s = m +:+ rest ∧ k m rest = Some x.
Proof.
  revert lo k. induction s as [|c s IH]; intros lo k H; simpl in H.
  - destruct lo; [|discriminate].
    destruct (k "" "") as [y|] eqn:E; [|discriminate].
    injection H as ->. by exists "", "".
  - destruct (match lo with O => k "" (String c s) | S _ => None end) as [y|] eqn:E.
    + injection H as ->. destruct lo; [|discriminate]. by exists "", (String c s).
    + destruct (p c); [|discriminate].
      apply IH in H as (m & rest & -> & Hk). by exists (String c m), rest.
Qed.

Lemma mt_sound r s g (k : string → string → groups → option R) x :
  mt r s g k = Some x →
  ∃ m rest g', s = m +:+ rest ∧ k m rest g' = Some x.
Proof.
  revert s g k. induction r as [|c|p|greedy lo p|n r IH|n|r1 IH1 r2 IH2];
    intros s g k H; simpl in H.
  - by exists "", s, g.
  - destruct s as [|c' s]; [discriminate|].
    destruct (Ascii.eqb c c'); [|discriminate]. by exists (String c' ""), s, g.
  - destruct s as [|c' s]; [discriminate|].
    destruct (p c'); [|discriminate]. by exists (String c' ""), s, g.
  - destruct greedy.
    + apply rep_greedy_sound in H as (m & rest & -> & Hk). by exists m, rest, g.
    + apply rep_lazy_sound in H as (m & rest & -> & Hk). by exists m, rest, g.
  - apply IH in H as (m & rest & g' & -> & Hk). by exists m, rest, (<[n:=m]> g').
  - destruct (g !! n) as [t|]; [|discriminate].
    destruct (strip_prefix t s) as [rest|] eqn:E; [|discriminate].
    apply strip_prefix_Some in E as ->. by exists t, rest, g.
  - apply IH1 in H as (m1 & rest1 & g1 & -> & H).
    apply IH2 in H as (m2 & rest2 & g2 & -> & H).
    exists (m1 +:+ m2), rest2, g2. by rewrite append_assoc.
Qed.
End Soundness.

(** A match and the text after it make up the input. *)
Lemma match_at_sound r s must_advance m rest :
  match_at r s must_advance = Some (m, rest) →
  s = m_whole m +:+ rest ∧ (must_advance = true → is_empty (m_whole m) = false).
Proof.
  unfold match_at. intros H.
  apply mt_sound in H as (w & rest' & g & -> & H).
  destruct must_advance, (is_empty w) eqn:E; simpl in H; try discriminate;
    injection H as <- <-; simpl; split; congruence.
Qed.

Lemma search_sound r s must_advance pre m rest :
  search r s must_advance = Some (pre, m, rest) →
  s = pre +:+ m_whole m +:+ rest ∧
  (must_advance = true → is_empty pre = true → is_empty (m_whole m) = false).
Proof.
  revert must_advance pre. induction s as [|c s IH]; intros ma pre H; simpl in H.
  - destruct (match_at r "" ma) as [[m' rest']|] eqn:E; [|discriminate].
    injection H as <- <- <-. apply match_at_sound in E as [E1 E2].
    split; [by rewrite append_nil_l | auto].
  - destruct (match_at r (String c s) ma) as [[m' rest']|] eqn:E.
    + injection H as <- <- <-. apply match_at_sound in E as [E1 E2].
      split; [by rewrite append_nil_l | auto].
    + destruct (search r s false) as [[[pre' m'] rest']|] eqn:E'; [|discriminate].
      injection H as <- <- <-. apply IH in E' as [-> _].
      split; [by rewrite append_cons | discriminate].
Qed.

(** ** The loop of [re.sub] never runs out of rounds *)

Lemma search_rounds r s must_advance pre m rest :
  search r s must_advance = Some (pre, m, rest) →
  rounds rest (is_empty (m_whole m)) < rounds s must_advance.
Proof.
  intros H. apply search_sound in H as [-> H]. unfold rounds.
  rewrite !append_length.
  destruct (m_whole m) as [|c w] eqn:Ew; simpl; [|lia].
  destruct pre as [|c pre]; simpl; [|lia].
  destruct must_advance; [|lia]. by specialize (H eq_refl eq_refl).
Qed.

(** Any two counts of rounds above the measure give the same result. *)
Lemma sub_loop_fuel r repl fuel1 fuel2 s must_advance :
  rounds s must_advance < fuel1 → rounds s must_advance < fuel2 →
  sub_loop fuel1 r repl s must_advance = sub_loop fuel2 r repl s must_advance.
Proof.
  revert fuel2 s must_advance.
  induction fuel1 as [|fuel1 IH]; intros fuel2 s ma H1 H2; [lia|].
  destruct fuel2 as [|fuel2]; [lia|]. simpl.
  destruct (search r s ma) as [[[pre m] rest]|] eqn:E; [|reflexivity].
  apply search_rounds in E. do 2 f_equal. apply IH; lia.
Qed.

(** One round of the loop, without the count of rounds. *)
Lemma sub_from_unfold r repl s must_advance :
  sub_from r repl s must_advance =
  match search r s must_advance with
  | None => s
  | Some (pre, m, rest) =>
      pre +:+ repl m +:+ sub_from r repl rest (is_empty (m_whole m))
  end.
Proof.
  unfold sub_from at 1.
  replace (2 * String.length s + 2) with (S (2 * String.length s + 1)) by lia.
  simpl sub_loop.
  destruct (search r s must_advance) as [[[pre m] rest]|] eqn:E; [|reflexivity].
  apply search_rounds in E. do 2 f_equal. unfold sub_from.
  apply sub_loop_fuel; unfold rounds in *; destruct must_advance, (is_empty _); lia.
Qed.

(** ** [re.sub] with a pattern that never matches the empty string *)
Section SubLemmas.
Variable r : regex.
Variable repl : Match → string.
Hypothesis nonempty : ∀ s m rest,
  match_at r s false = Some (m, rest) → is_empty (m_whole m) = false.

Lemma search_nonempty s pre m rest :
  search r s false = Some (pre, m, rest) → is_empty (m_whole m) = false.
Proof.
  revert pre. induction s as [|c s IH]; intros pre H; simpl in H.
  - destruct (match_at r "" false) as [[m' rest']|] eqn:E; [|discriminate].
    injection H as <- <- <-. eauto.
  - destruct (match_at r (String c s) false) as [[m' rest']|] eqn:E.
    + injection H as <- <- <-. eauto.
    + destruct (search r s false) as [[[pre' m'] rest']|] eqn:E'; [|discriminate].
      injection H as <- <- <-. eauto.
Qed.

(** A match at the head is replaced, and the loop goes on after it. *)
Lemma sub_head s m rest :
  match_at r s false = Some (m, rest) →
  sub r repl s = repl m +:+ sub r repl rest.
Proof.
  intros H. unfold sub. rewrite sub_from_unfold.
  assert (search r s false = Some ("", m, rest)) as ->
    by (destruct s; simpl; by rewrite H).
  by rewrite (nonempty _ _ _ H), append_nil_l.
Qed.

(** Without a match at the head, one character is copied. *)
Lemma sub_skip c s :
  match_at r (String c s) false = None →
  sub r repl (String c s) = String c (sub r repl s).
Proof.
  intros H. unfold sub. rewrite (sub_from_unfold _ _ (String c s)).
  simpl search. rewrite H. rewrite (sub_from_unfold _ _ s).
  destruct (search r s false) as [[[pre m] rest]|] eqn:E; [|reflexivity].
  by rewrite (search_nonempty _ _ _ _ E), append_cons.
Qed.

Lemma sub_nil : match_at r "" false = None → sub r repl "" = "".
Proof. intros H. unfold sub. rewrite sub_from_unfold. simpl. by rewrite H. Qed.
End SubLemmas.

(** ** Unfolding the matcher on the shapes the patterns are made of *)
Section MatcherLemmas.
Context {R : Type}.
Implicit Types k : string → string → groups → option R.

Lemma mt_seq r1 r2 s g k :
  mt (r1 +++ r2) s g k =
  mt r1 s g (λ m1 rest1 g1, mt r2 rest1 g1 (λ m2 rest2 g2, k (m1 +:+ m2) rest2 g2)).
Proof. reflexivity. Qed.

Lemma mt_backref n s g k :
  mt (Backref n) s g k =
  match g !! n with
  | Some t =>
      match strip_prefix t s with Some rest => k t rest g | None => None end
  | None => None
  end.
Proof. reflexivity. Qed.

Lemma mt_lits l s g k :
  mt (lits l) s g k =
  match strip_prefix l s with Some rest => k l rest g | None => None end.
Proof.
  revert s k. induction l as [|c l IH]; intros s k; [reflexivity|].
  simpl. destruct s as [|c' s]; [reflexivity|].
  destruct (Ascii.eqb c c') eqn:E; [|reflexivity].
  apply ascii_eqb_true in E as <-. rewrite IH.
  by destruct (strip_prefix l s).
Qed.

Lemma mt_seq_lits l r s g k :
  mt (lits l +++ r) s g k =
  match strip_prefix l s with
  | Some rest => mt r rest g (λ m2 rest2 g2, k (l +:+ m2) rest2 g2)
  | None => None
  end.
Proof. by rewrite mt_seq, mt_lits. Qed.

(** Greedy repetition followed by something that cannot start with a
    character of the class: no backtracking into the repetition can
    succeed, the longest run is the only candidate. *)
Lemma rep_greedy_span p lo s (k : string → string → option R) :
  (∀ m c rest, p c = true → k m (String c rest) = None) →
  rep_greedy p lo s k =
  let '(w, rest) := span p s in
  if (lo <=? String.length w)%nat then k w rest else None.
Proof.
  revert lo k. induction s as [|c s IH]; intros lo k Hk; simpl.
  - by destruct lo.
  - destruct (p c) eqn:Hc; [|by destruct lo].
    rewrite IH by (intros; by apply Hk).
    destruct (span p s) as [w rest]. simpl String.length.
    replace (lo <=? S (String.length w))%nat with (pred lo <=? String.length w)%nat
      by (by destruct lo).
    destruct (pred lo <=? String.length w)%nat; [destruct (k (String c w) rest)|];
      try reflexivity; destruct lo; try reflexivity; by apply Hk.
Qed.

Lemma mt_group_greedy n lo p s g k :
  (∀ m c rest g', p c = true → k m (String c rest) g' = None) →
  mt (Group n (Repeat true lo p)) s g k =
  let '(w, rest) := span p s in
  if (lo <=? String.length w)%nat then k w rest (<[n:=w]> g) else None.
Proof.
  intros Hk. simpl. rewrite rep_greedy_span by (intros; by apply Hk).
  reflexivity.
Qed.

Lemma mt_group_lazy n lo p s g k :
  mt (Group n (Repeat false lo p)) s g k =
  rep_lazy p lo s (λ m rest, k m rest (<[n:=m]> g)).
Proof. reflexivity. Qed.

(** Lazy repetition of a class that holds of every character, followed by
    a fixed text: the first occurrence of that text ends the repetition. *)
Lemma rep_lazy_find p needle s (k : string → string → option R) F :
  (∀ c, p c = true) →
  (∀ m rest, k m rest =
     match strip_prefix needle rest with
     | Some post => Some (F m post)
     | None => None
     end) →
  rep_lazy p 0 s k =
  match find_first needle s with
  | Some (content, post) => Some (F content post)
  | None => None
  end.
Proof.
  intros Hp. revert k F. induction s as [|c s IH]; intros k F Hk; simpl.
  - rewrite Hk. simpl. by destruct (strip_prefix needle "").
  - rewrite Hk. destruct (strip_prefix needle (String c s)); [reflexivity|].
    rewrite Hp.
    rewrite (IH _ (λ m post, F (String c m) post)) by (intros; apply Hk).
    by destruct (find_first needle s) as [[? ?]|].
Qed.

(** The closing tag [\{\{/\1\}\}] once group 1 is known. *)
Lemma mt_close name s g k :
  g !! 1 = Some name →
  mt (lits "{{/" +++ Backref 1 +++ lits "}}") s g k =
  match strip_prefix (close_tag name) s with
  | Some post => k (close_tag name) post g
  | None => None
  end.
Proof.
  intros Hg. unfold close_tag. rewrite strip_prefix_app, mt_seq_lits.
  destruct (strip_prefix "{{/" s) as [s1|]; [|reflexivity].
  rewrite strip_prefix_app, mt_seq, mt_backref, Hg.
  destruct (strip_prefix name s1) as [s2|]; [|reflexivity].
  rewrite mt_lits. by destruct (strip_prefix "}}" s2).
Qed.
End MatcherLemmas.

(** ** What each pattern of the script matches *)

Lemma class_excludes (p : ascii → bool) (x c : ascii) :
  p x = false → p c = true → Ascii.eqb x c = false.
Proof.
  intros Hx Hc. destruct (Ascii.eqb x c) eqn:E; [|reflexivity].
  apply ascii_eqb_true in E. congruence.
Qed.

Lemma strip_prefix_excluded (p : ascii → bool) x l c rest :
  p x = false → p c = true → strip_prefix (String x l) (String c rest) = None.
Proof. intros Hx Hc. simpl. by rewrite (class_excludes p). Qed.

(** The block patterns match a block as [parse_block] reads it: the name is
    the whole run of word characters, the content ends at the first closing
    tag of that name. *)
Theorem match_at_block sigil s must_advance :
  match_at (block_pattern sigil) s must_advance =
  match parse_block sigil s with
  | Some (name, content, post) => Some (block_match sigil name content, post)
  | None => None
  end.
Proof.
  unfold match_at, block_pattern, parse_block. rewrite mt_seq_lits.
  destruct (strip_prefix _ s) as [s1|]; [|reflexivity].
  rewrite mt_seq, mt_group_greedy.
  2:{ intros m c rest g' Hc. rewrite mt_seq_lits.
      by rewrite (strip_prefix_excluded is_word). }
  destruct (span is_word s1) as [name s2].
  replace (1 <=? String.length name)%nat with (negb (is_empty name)) by (by destruct name).
  destruct (is_empty name); [reflexivity|]. simpl negb. cbv iota.
  rewrite mt_seq_lits. destruct (strip_prefix "}}" s2) as [s3|]; [|reflexivity].
  rewrite mt_seq, mt_group_lazy.
  erewrite (rep_lazy_find _ (close_tag name)); [|reflexivity|].
  - destruct (find_first (close_tag name) s3) as [[content post]|]; reflexivity.
  - intros m rest. cbv beta.
    rewrite (mt_close name) by (by rewrite lookup_insert_ne, lookup_insert_eq).
    destruct (strip_prefix (close_tag name) rest) as [post|]; [|reflexivity].
    rewrite andb_false_r. unfold block_match, open_tag.
    by rewrite !append_assoc.
Qed.

(** The pattern of defaulted variables: the name and the default are the
    whole runs of word characters and of characters other than [}]. *)
Theorem match_at_default s must_advance :
  match_at default_pattern s must_advance =
  match parse_default s with
  | Some (name, dflt, post) => Some (default_match name dflt, post)
  | None => None
  end.
Proof.
  unfold match_at, default_pattern, parse_default. rewrite mt_seq_lits.
  destruct (strip_prefix _ s) as [s1|]; [|reflexivity].
  rewrite mt_seq, mt_group_greedy.
  2:{ intros m c rest g' Hc. rewrite mt_seq_lits.
      by rewrite (strip_prefix_excluded is_word). }
  destruct (span is_word s1) as [name s2].
  replace (1 <=? String.length name)%nat with (negb (is_empty name)) by (by destruct name).
  destruct (is_empty name); [reflexivity|]. simpl negb. cbv iota.
  rewrite mt_seq_lits. destruct (strip_prefix _ s2) as [s3|]; [|reflexivity].
  rewrite mt_seq, mt_group_greedy.
  2:{ intros m c rest g' Hc. rewrite mt_lits.
      by rewrite (strip_prefix_excluded (not_char "}")). }
  destruct (span _ s3) as [dflt s4].
  replace (1 <=? String.length dflt)%nat with (negb (is_empty dflt)) by (by destruct dflt).
  destruct (is_empty dflt); [reflexivity|]. simpl negb. cbv iota.
  rewrite mt_lits. destruct (strip_prefix _ s4) as [post|]; [|reflexivity].
  rewrite andb_false_r. unfold default_match. by rewrite ?append_assoc.
Qed.

(** The pattern of plain variables. *)
Theorem match_at_simple s must_advance :
  match_at simple_pattern s must_advance =
  match parse_simple s with
  | Some (name, post) => Some (simple_match name, post)
  | None => None
  end.
Proof.
  unfold match_at, simple_pattern, parse_simple. rewrite mt_seq_lits.
  destruct (strip_prefix _ s) as [s1|]; [|reflexivity].
  rewrite mt_seq, mt_group_greedy.
  2:{ intros m c rest g' Hc. rewrite mt_lits.
      by rewrite (strip_prefix_excluded is_word). }
  destruct (span is_word s1) as [name s2].
  replace (1 <=? String.length name)%nat with (negb (is_empty name)) by (by destruct name).
  destruct (is_empty name); [reflexivity|]. simpl negb. cbv iota.
  rewrite mt_lits. destruct (strip_prefix _ s2) as [post|]; [|reflexivity].
  rewrite andb_false_r. unfold simple_match. by rewrite ?append_assoc.
Qed.

(** ** Templates without a markup token *)

Lemma find_first_app (needle a b : string) :
  ∃ pre post, find_first needle (a +:+ needle +:+ b) = Some (pre, post).
Proof.
  induction a as [|c a (pre & post & IH)].
  - exists "", b. rewrite append_nil_l.
    destruct needle, b; simpl; by rewrite ?Ascii.eqb_refl, ?strip_prefix_app_same.
  - rewrite append_cons. simpl find_first.
    destruct (strip_prefix needle _); [by eauto|]. rewrite IH. by eauto.
Qed.

Lemma contains_app (needle a b : string) : contains needle (a +:+ needle +:+ b) = true.
Proof. unfold contains. by destruct (find_first_app needle a b) as (? & ? & ->). Qed.

Lemma has_token_intro (x y : string) : has_token ("{{" +:+ x +:+ "}}" +:+ y) = true.
Proof.
  change ("{{" +:+ x +:+ "}}" +:+ y) with (String "{" (String "{" (x +:+ "}}" +:+ y))).
  simpl. by rewrite contains_app.
Qed.

Lemma has_token_tail (c : ascii) (s : string) :
  has_token (String c s) = false → has_token s = false.
Proof.
  simpl. destruct c as [[] [] [] [] [] [] [] []]; try done;
    destruct s as [|[[] [] [] [] [] [] [] []] s]; try done;
    simpl; by intros [_ ?]%orb_false_elim.
Qed.

Lemma sub_no_token r repl s :
  matches_tokens r → has_token s = false → sub r repl s = s.
Proof.
  intros Hr. assert (Hne : ∀ s m rest, match_at r s false = Some (m, rest) →
    is_empty (m_whole m) = false) by (intros; by eapply Hr).
  assert (Hno : ∀ t, has_token t = false → match_at r t false = None).
  { intros t Ht. destruct (match_at r t false) as [[m rest]|] eqn:E; [|done].
    apply Hr in E as [(x & y & ->) _]. by rewrite has_token_intro in Ht. }
  induction s as [|c s IH]; intros Hs.
  - apply sub_nil. by apply Hno.
  - rewrite sub_skip by auto. f_equal. apply IH. by eapply has_token_tail.
Qed.

Lemma block_pattern_tokens sigil : matches_tokens (block_pattern sigil).
Proof.
  intros s m rest H. pose proof (match_at_sound _ _ _ _ _ H) as [Hs _].
  rewrite match_at_block in H.
  destruct (parse_block sigil s) as [[[name content] post]|]; [|discriminate].
  injection H as <- <-. split; [|reflexivity].
  rewrite Hs. simpl m_whole. unfold open_tag.
  rewrite !append_assoc.
  change (String "{" (String "{" (String sigil "")) +:+ ?x)
    with ("{{" +:+ String sigil "" +:+ x).
  rewrite <- (append_assoc (String sigil "") name). by eauto.
Qed.

Lemma default_pattern_tokens : matches_tokens default_pattern.
Proof.
  intros s m rest H. pose proof (match_at_sound _ _ _ _ _ H) as [Hs _].
  rewrite match_at_default in H.
  destruct (parse_default s) as [[[name dflt] post]|]; [|discriminate].
  injection H as <- <-. split; [|reflexivity].
  rewrite Hs. simpl m_whole. rewrite !append_assoc.
  rewrite <- (append_assoc name "|default:"), <- (append_assoc _ dflt).
  by eauto.
Qed.

Lemma simple_pattern_tokens : matches_tokens simple_pattern.
Proof.
  intros s m rest H. pose proof (match_at_sound _ _ _ _ _ H) as [Hs _].
  rewrite match_at_simple in H.
  destruct (parse_simple s) as [[name post]|]; [|discriminate].
  injection H as <- <-. split; [|reflexivity].
  rewrite Hs. simpl m_whole. rewrite !append_assoc. by eauto.
Qed.

Lemma pass_conditional_no_token variables s :
  has_token s = false → pass_conditional variables s = s.
Proof.
  intros H. unfold pass_conditional, sweep_conditional. simpl Nat.iter.
  by rewrite !(sub_no_token conditional_pattern _ s)
    by (done || apply block_pattern_tokens).
Qed.

Lemma pass_inverted_no_token variables s :
  has_token s = false → pass_inverted variables s = s.
Proof.
  intros H. unfold pass_inverted, sweep_inverted. simpl Nat.iter.
  by rewrite !(sub_no_token inverted_pattern _ s)
    by (done || apply block_pattern_tokens).
Qed.

Lemma pass_default_no_token variables s :
  has_token s = false → pass_default variables s = s.
Proof. intros H. apply sub_no_token; [apply default_pattern_tokens | done]. Qed.

Lemma pass_simple_no_token variables s :
  has_token s = false → pass_simple variables s = s.
Proof. intros H. apply sub_no_token; [apply simple_pattern_tokens | done]. Qed.

Lemma process_template_no_token template_content variables :
  has_token template_content = false →
  process_template template_content variables = template_content.
Proof.
  intros H. unfold process_template.
  by rewrite pass_conditional_no_token, pass_inverted_no_token,
    pass_default_no_token, pass_simple_no_token.
Qed.

(** ** The callbacks on the matches of their patterns *)

Lemma dict_get_lookup (variables : gmap string string) name dflt :
  dict_get variables name dflt =
  match variables !! name with Some v => v | None => dflt end.
Proof. unfold dict_get. by destruct (variables !! name). Qed.

Lemma group_block sigil name content :
  group (block_match sigil name content) 1 = name ∧
  group (block_match sigil name content) 2 = content.
Proof.
  unfold group, block_match; simpl.
  by rewrite lookup_insert_ne, !lookup_insert_eq.
Qed.

Lemma replace_conditional_block variables name content :
  replace_conditional variables (block_match "#" name content) =
  if truthy (dict_get variables name "") then content else "".
Proof.
  unfold replace_conditional.
  by destruct (group_block "#" name content) as [-> ->].
Qed.

Lemma replace_inverted_block variables name content :
  replace_inverted_conditional variables (block_match "^" name content) =
  if truthy (dict_get variables name "") then "" else content.
Proof.
  unfold replace_inverted_conditional.
  destruct (group_block "^" name content) as [-> ->].
  by destruct (truthy _).
Qed.

Lemma replace_with_default_match variables name dflt :
  replace_with_default variables (default_match name dflt) =
  dict_get variables name dflt.
Proof.
  unfold replace_with_default, group, default_match; simpl.
  by rewrite lookup_insert_ne, !lookup_insert_eq.
Qed.

Lemma replace_simple_match variables name :
  replace_simple variables (simple_match name) = dict_get variables name "".
Proof.
  unfold replace_simple, group, simple_match; simpl.
  by rewrite lookup_insert_eq.
Qed.

(** ** One step of each pass *)

Lemma block_pattern_nonempty sigil s m rest :
  match_at (block_pattern sigil) s false = Some (m, rest) →
  is_empty (m_whole m) = false.
Proof. intros H. by apply block_pattern_tokens in H as [_ ?]. Qed.

Lemma default_pattern_nonempty s m rest :
  match_at default_pattern s false = Some (m, rest) →
  is_empty (m_whole m) = false.
Proof. intros H. by apply default_pattern_tokens in H as [_ ?]. Qed.

Lemma simple_pattern_nonempty s m rest :
  match_at simple_pattern s false = Some (m, rest) →
  is_empty (m_whole m) = false.
Proof. intros H. by apply simple_pattern_tokens in H as [_ ?]. Qed.

Section Steps.
Variable variables : gmap string string.

Lemma sweep_conditional_head s name content post :
  parse_block "#" s = Some (name, content, post) →
  sweep_conditional variables s =
  (if truthy (dict_get variables name "") then content else "")
  +:+ sweep_conditional variables post.
Proof.
  intros H. unfold sweep_conditional.
  rewrite (sub_head _ _ (block_pattern_nonempty "#") s
             (block_match "#" name content) post).
  - by rewrite replace_conditional_block.
  - unfold conditional_pattern. by rewrite match_at_block, H.
Qed.

Lemma sweep_conditional_skip c s :
  parse_block "#" (String c s) = None →
  sweep_conditional variables (String c s) =
  String c (sweep_conditional variables s).
Proof.
  intros H. apply (sub_skip _ _ (block_pattern_nonempty "#")).
  unfold conditional_pattern. by rewrite match_at_block, H.
Qed.

Lemma sweep_inverted_head s name content post :
  parse_block "^" s = Some (name, content, post) →
  sweep_inverted variables s =
  (if truthy (dict_get variables name "") then "" else content)
  +:+ sweep_inverted variables post.
Proof.
  intros H. unfold sweep_inverted.
  rewrite (sub_head _ _ (block_pattern_nonempty "^") s
             (block_match "^" name content) post).
  - by rewrite replace_inverted_block.
  - unfold inverted_pattern. by rewrite match_at_block, H.
Qed.

Lemma sweep_inverted_skip c s :
  parse_block "^" (String c s) = None →
  sweep_inverted variables (String c s) =
  String c (sweep_inverted variables s).
Proof.
  intros H. apply (sub_skip _ _ (block_pattern_nonempty "^")).
  unfold inverted_pattern. by rewrite match_at_block, H.
Qed.

Lemma pass_default_head s name dflt post :
  parse_default s = Some (name, dflt, post) →
  pass_default variables s =
  dict_get variables name dflt +:+ pass_default variables post.
Proof.
  intros H. unfold pass_default.
  rewrite (sub_head _ _ default_pattern_nonempty s (default_match name dflt) post).
  - by rewrite replace_with_default_match.
  - by rewrite match_at_default, H.
Qed.

Lemma pass_default_skip c s :
  parse_default (String c s) = None →
  pass_default variables (String c s) = String c (pass_default variables s).
Proof.
  intros H. apply (sub_skip _ _ default_pattern_nonempty).
  by rewrite match_at_default, H.
Qed.

Lemma pass_simple_head s name post :
  parse_simple s = Some (name, post) →
  pass_simple variables s =
  dict_get variables name "" +:+ pass_simple variables post.
Proof.
  intros H. unfold pass_simple.
  rewrite (sub_head _ _ simple_pattern_nonempty s (simple_match name) post).
  - by rewrite replace_simple_match.
  - by rewrite match_at_simple, H.
Qed.

Lemma pass_simple_skip c s :
  parse_simple (String c s) = None →
  pass_simple variables (String c s) = String c (pass_simple variables s).
Proof.
  intros H. apply (sub_skip _ _ simple_pattern_nonempty).
  by rewrite match_at_simple, H.
Qed.

Lemma sweep_conditional_nil : sweep_conditional variables "" = "".
Proof. apply sub_nil. unfold conditional_pattern. by rewrite match_at_block. Qed.

Lemma sweep_inverted_nil : sweep_inverted variables "" = "".
Proof. apply sub_nil. unfold inverted_pattern. by rewrite match_at_block. Qed.

Lemma pass_default_nil : pass_default variables "" = "".
Proof. apply sub_nil. by rewrite match_at_default. Qed.

Lemma pass_simple_nil : pass_simple variables "" = "".
Proof. apply sub_nil. by rewrite match_at_simple. Qed.
End Steps.

(** ** Tags written out *)

Lemma span_app_stop p w x rest :
  all_chars p w = true → p x = false →
  span p (w +:+ String x rest) = (w, String x rest).
Proof.
  intros Hw Hx. induction w as [|c w IH].
  - rewrite append_nil_l. simpl. by rewrite Hx.
  - rewrite append_cons. simpl in *. apply andb_true_iff in Hw as [-> Hw].
    by rewrite IH.
Qed.

Lemma is_name_inv name :
  is_name name = true → is_empty name = false ∧ all_chars is_word name = true.
Proof.
  unfold is_name. intros [H1 H2]%andb_true_iff.
  split; [by destruct (is_empty name)|done].
Qed.

Lemma parse_simple_tag name post :
  is_name name = true →
  parse_simple ("{{" +:+ name +:+ "}}" +:+ post) = Some (name, post).
Proof.
  intros [Hne Hw]%is_name_inv. unfold parse_simple.
  rewrite strip_prefix_app_same.
  change ("}}" +:+ post) with (String "}" (String "}" post)).
  rewrite span_app_stop by done. by rewrite Hne.
Qed.

Lemma parse_default_tag name dflt post :
  is_name name = true →
  is_empty dflt = false → all_chars (not_char "}") dflt = true →
  parse_default ("{{" +:+ name +:+ "|default:" +:+ dflt +:+ "}}" +:+ post)
  = Some (name, dflt, post).
Proof.
  intros [Hne Hw]%is_name_inv Hd1 Hd2. unfold parse_default.
  rewrite strip_prefix_app_same.
  change ("|default:" +:+ ?x) with (String "|" ("default:" +:+ x)).
  rewrite span_app_stop by done. rewrite Hne.
  change (String "|" ("default:" +:+ ?x)) with ("|default:" +:+ x).
  rewrite strip_prefix_app_same.
  change ("}}" +:+ post) with (String "}" (String "}" post)).
  rewrite span_app_stop by done. by rewrite Hd1.
Qed.

Lemma parse_block_tag sigil name content post :
  is_name name = true →
  find_first (close_tag name) (content +:+ close_tag name +:+ post)
    = Some (content, post) →
  parse_block sigil (open_tag sigil name +:+ content +:+ close_tag name +:+ post)
  = Some (name, content, post).
Proof.
  intros [Hne Hw]%is_name_inv Hc. unfold parse_block, open_tag.
  rewrite !append_assoc, strip_prefix_app_same.
  change ("}}" +:+ ?x) with (String "}" (String "}" x)).
  rewrite span_app_stop by done. rewrite Hne.
  change (String "}" (String "}" ?x)) with ("}}" +:+ x).
  by rewrite strip_prefix_app_same, Hc.
Qed.

(** Text without an opening brace holds no first character of a tag. *)
Lemma find_first_skip x needle pre t :
  all_chars (not_char x) pre = true →
  find_first (String x needle) (pre +:+ t) =
  match find_first (String x needle) t with
  | Some (a, b) => Some (pre +:+ a, b)
  | None => None
  end.
Proof.
  intros H. induction pre as [|c pre IH].
  - rewrite append_nil_l. by destruct (find_first _ t) as [[? ?]|].
  - simpl in H. apply andb_true_iff in H as [Hc H].
    rewrite append_cons. simpl find_first.
    unfold not_char in Hc. rewrite Ascii.eqb_sym in Hc.
    destruct (Ascii.eqb x c); [done|]. rewrite IH by done.
    by destruct (find_first _ t) as [[? ?]|].
Qed.

Lemma no_brace_no_token s : all_chars (not_char "{") s = true → has_token s = false.
Proof.
  induction s as [|c s IH]; [done|]. simpl. intros [Hc H]%andb_true_iff.
  unfold not_char in Hc. rewrite Ascii.eqb_sym in Hc.
  destruct (Ascii.eqb "{" c) eqn:E; [done|].
  destruct c as [[] [] [] [] [] [] [] []]; try done; by apply IH.
Qed.

Lemma word_no_brace s : all_chars is_word s = true → all_chars (not_char "{") s = true.
Proof.
  induction s as [|c s IH]; [done|]. simpl. intros [Hc H]%andb_true_iff.
  rewrite IH by done. rewrite andb_true_r. unfold not_char.
  by rewrite Ascii.eqb_sym, (class_excludes is_word).
Qed.

(** Two different names followed by [}}] are not a prefix of one another. *)
Lemma names_differ a b t :
  all_chars is_word a = true → all_chars is_word b = true → a ≠ b →
  strip_prefix (a +:+ "}}") (b +:+ "}}" +:+ t) = None.
Proof.
  revert b. induction a as [|x a IH]; intros [|y b] Ha Hb Hab; try done.
  - simpl in Hb. apply andb_true_iff in Hb as [Hy _].
    rewrite append_nil_l, append_cons. by apply (strip_prefix_excluded is_word).
  - simpl in Ha. apply andb_true_iff in Ha as [Hx _].
    rewrite append_nil_l, append_cons. simpl.
    by rewrite Ascii.eqb_sym, (class_excludes is_word).
  - simpl in Ha, Hb. apply andb_true_iff in Ha as [_ Ha].
    apply andb_true_iff in Hb as [_ Hb]. rewrite !append_cons. simpl.
    destruct (Ascii.eqb x y) eqn:E; [|done].
    apply ascii_eqb_true in E as ->. apply IH; congruence.
Qed.

(** ** Nested blocks *)

Lemma all_chars_app p a b : all_chars p (a +:+ b) = all_chars p a && all_chars p b.
Proof.
  induction a as [|c a IH]; [done|]. rewrite append_cons. simpl.
  by rewrite IH, andb_assoc.
Qed.

Lemma find_first_unfold needle s :
  find_first needle s =
  match strip_prefix needle s with
  | Some post => Some ("", post)
  | None =>
      match s with
      | EmptyString => None
      | String c s' =>
          match find_first needle s' with
          | Some (pre, post) => Some (String c pre, post)
          | None => None
          end
      end
  end.
Proof. by destruct s. Qed.

Lemma find_first_here needle post :
  find_first needle (needle +:+ post) = Some ("", post).
Proof. by rewrite find_first_unfold, strip_prefix_app_same. Qed.

Lemma find_first_skip_char needle c s :
  strip_prefix needle (String c s) = None →
  find_first needle (String c s) =
  match find_first needle s with
  | Some (pre, post) => Some (String c pre, post)
  | None => None
  end.
Proof. intros H. simpl find_first. by rewrite H. Qed.

(** A tag that is not the one looked for is stepped over as a whole. *)
Lemma find_first_tag_skip nd c pre t :
  all_chars (not_char "{") (String c pre) = true →
  strip_prefix ("{{" +:+ nd) ("{{" +:+ String c pre +:+ t) = None →
  find_first ("{{" +:+ nd) ("{{" +:+ String c pre +:+ t) =
  match find_first ("{{" +:+ nd) t with
  | Some (a, b) => Some ("{{" +:+ String c pre +:+ a, b)
  | None => None
  end.
Proof.
  intros Hpre Hno.
  change ("{{" +:+ String c pre +:+ t)
    with (String "{" (String "{" (String c pre +:+ t))) in *.
  rewrite (find_first_skip_char _ _ _ Hno), find_first_skip_char.
  - change ("{{" +:+ nd) with (String "{" (String "{" nd)).
    rewrite find_first_skip by done.
    by destruct (find_first _ t) as [[a b]|].
  - simpl in Hpre. apply andb_true_iff in Hpre as [Hc _]. unfold not_char in Hc.
    rewrite Ascii.eqb_sym in Hc.
    change (strip_prefix ("{{" +:+ nd) (String "{" (String c pre +:+ t)))
      with (if Ascii.eqb "{" c then strip_prefix nd (pre +:+ t) else None).
    by destruct (Ascii.eqb "{" c).
Qed.

Lemma find_first_skip_open n m t :
  all_chars is_word m = true →
  find_first (close_tag n) (open_tag "#" m +:+ t) =
  match find_first (close_tag n) t with
  | Some (a, b) => Some (open_tag "#" m +:+ a, b)
  | None => None
  end.
Proof.
  intros Hm.
  change (close_tag n) with ("{{" +:+ String "/" (n +:+ "}}")).
  change (open_tag "#" m +:+ t) with ("{{" +:+ String "#" (m +:+ "}}") +:+ t).
  rewrite (find_first_tag_skip _ "#" (m +:+ "}}") t); [| |done].
  - by destruct (find_first _ t) as [[a b]|].
  - simpl. by rewrite all_chars_app, word_no_brace.
Qed.

Lemma find_first_skip_close n m t :
  all_chars is_word n = true → all_chars is_word m = true → n ≠ m →
  find_first (close_tag n) (close_tag m +:+ t) =
  match find_first (close_tag n) t with
  | Some (a, b) => Some (close_tag m +:+ a, b)
  | None => None
  end.
Proof.
  intros Hn Hm Hnm.
  change (close_tag n) with ("{{" +:+ String "/" (n +:+ "}}")).
  change (close_tag m +:+ t) with ("{{" +:+ String "/" (m +:+ "}}") +:+ t).
  rewrite (find_first_tag_skip _ "/" (m +:+ "}}") t).
  - by destruct (find_first _ t) as [[a b]|].
  - simpl. by rewrite all_chars_app, word_no_brace.
  - change (strip_prefix (n +:+ "}}") ((m +:+ "}}") +:+ t) = None).
    rewrite append_assoc. by apply names_differ.
Qed.

Lemma find_first_nest n names body t :
  is_name n = true → valid_names names → n ∉ names →
  all_chars (not_char "{") body = true →
  find_first (close_tag n) (nest names body +:+ t) =
  match find_first (close_tag n) t with
  | Some (a, b) => Some (nest names body +:+ a, b)
  | None => None
  end.
Proof.
  intros [_ Hn]%is_name_inv Hnames Hnot Hbody. revert t.
  induction Hnames as [|m names [_ Hm]%is_name_inv Hnames IH]; intros t.
  - simpl. by apply find_first_skip.
  - apply not_elem_of_cons in Hnot as [Hnm Hnot]. simpl nest.
    rewrite !append_assoc, find_first_skip_open, IH, find_first_skip_close by done.
    destruct (find_first _ t) as [[a b]|]; [|done]. by rewrite !append_assoc.
Qed.

Section Nesting.
Variable variables : gmap string string.

(** One sweep removes the outermost level. *)
Lemma sweep_nest n names body :
  is_name n = true → valid_names names → n ∉ names →
  all_chars (not_char "{") body = true →
  truthy (dict_get variables n "") = true →
  sweep_conditional variables (nest (n :: names) body) = nest names body.
Proof.
  intros Hn Hnames Hnot Hbody Ht. simpl nest.
  rewrite <- (append_nil_r (close_tag n)).
  rewrite (sweep_conditional_head _ _ n (nest names body) "").
  - by rewrite Ht, sweep_conditional_nil, append_nil_r.
  - apply parse_block_tag; [done|].
    by rewrite find_first_nest, find_first_here, append_nil_r.
Qed.

(** ... or the whole block, when its variable is absent or empty. *)
Lemma sweep_nest_dropped n names body :
  is_name n = true → valid_names names → n ∉ names →
  all_chars (not_char "{") body = true →
  truthy (dict_get variables n "") = false →
  sweep_conditional variables (nest (n :: names) body) = "".
Proof.
  intros Hn Hnames Hnot Hbody Ht. simpl nest.
  rewrite <- (append_nil_r (close_tag n)).
  rewrite (sweep_conditional_head _ _ n (nest names body) "").
  - by rewrite Ht, sweep_conditional_nil.
  - apply parse_block_tag; [done|].
    by rewrite find_first_nest, find_first_here, append_nil_r.
Qed.

Lemma sweep_plain body :
  all_chars (not_char "{") body = true →
  sweep_conditional variables body = body.
Proof.
  intros H. apply sub_no_token; [apply block_pattern_tokens|].
  by apply no_brace_no_token.
Qed.

Lemma sweeps_nest k names body :
  valid_names names → NoDup names → truthy_names variables names →
  all_chars (not_char "{") body = true →
  Nat.iter k (sweep_conditional variables) (nest names body)
  = nest (drop k names) body.
Proof.
  intros Hv Hd Ht Hbody. induction k as [|k IH]; [by rewrite drop_0|].
  simpl Nat.iter. rewrite IH.
  replace (drop (S k) names) with (drop 1 (drop k names))
    by (rewrite drop_drop; f_equal; lia).
  assert (Hv' : valid_names (drop k names)) by (by apply Forall_drop).
  assert (Ht' : truthy_names variables (drop k names)) by (by apply Forall_drop).
  assert (Hd' : NoDup (drop k names)).
  { rewrite <- (take_drop k names) in Hd. by apply NoDup_app in Hd as (_ & _ & ?). }
  destruct (drop k names) as [|n rest]; [by apply sweep_plain|].
  simpl drop. apply NoDup_cons in Hd' as [? ?].
  apply Forall_cons in Hv' as [? ?]. apply Forall_cons in Ht' as [? ?].
  by apply sweep_nest.
Qed.

Lemma sweeps_plain k body :
  all_chars (not_char "{") body = true →
  Nat.iter k (sweep_conditional variables) body = body.
Proof.
  intros H. induction k as [|k IH]; [done|]. simpl. rewrite IH.
  by apply sweep_plain.
Qed.

(** As many sweeps as there are levels give the meaning of the nesting. *)
Lemma sweeps_resolve k names body :
  valid_names names → NoDup names →
  all_chars (not_char "{") body = true →
  length names ≤ k →
  Nat.iter k (sweep_conditional variables) (nest names body)
  = resolve variables names body.
Proof.
  intros Hv Hd Hbody. revert k.
  induction Hv as [|n names Hn Hv IH]; intros k Hk.
  - by apply sweeps_plain.
  - destruct k as [|k]; [simpl in Hk; lia|].
    apply NoDup_cons in Hd as [Hnot Hd]. rewrite Nat.iter_succ_r.
    simpl resolve. destruct (truthy (dict_get variables n "")) eqn:Ht.
    + rewrite sweep_nest by done. apply IH; [done|]. simpl in Hk. lia.
    + rewrite sweep_nest_dropped by done. by apply sweeps_plain.
Qed.
End Nesting.

(** ** Text that no pattern matches *)

Lemma search_nowhere r s : nowhere r s = true → search r s false = None.
Proof.
  induction s as [|c s IH]; simpl; destruct (match_at r _ false); try done.
  intros H. by rewrite IH.
Qed.

Lemma sub_nowhere r repl s : nowhere r s = true → sub r repl s = s.
Proof.
  intros H. unfold sub. by rewrite sub_from_unfold, search_nowhere.
Qed.

Section Braces.
Variable r : regex.
Variable repl : Match → string.
Hypothesis tokens : matches_tokens r.

Lemma match_at_needs_braces s :
  strip_prefix "{{" s = None → match_at r s false = None.
Proof.
  intros H. destruct (match_at r s false) as [[m rest]|] eqn:E; [|done].
  apply tokens in E as [(x & y & ->) _]. by rewrite strip_prefix_app_same in H.
Qed.

Lemma tokens_nonempty s m rest :
  match_at r s false = Some (m, rest) → is_empty (m_whole m) = false.
Proof. intros H. by apply tokens in H as [_ ?]. Qed.

(** A run of characters other than the opening brace is copied. *)
Lemma sub_skip_run w t :
  all_chars (not_char "{") w = true →
  sub r repl (w +:+ t) = w +:+ sub r repl t.
Proof.
  induction w as [|c w IH]; [done|]. simpl. intros [Hc Hw]%andb_true_iff.
  rewrite !append_cons, (sub_skip _ _ tokens_nonempty), IH; [done..|].
  apply match_at_needs_braces. by apply (strip_prefix_excluded (not_char "{")).
Qed.

(** A tag-like text that the pattern does not match is copied. *)
Lemma sub_skip_tag c w t :
  all_chars (not_char "{") (String c w) = true →
  match_at r ("{{" +:+ String c w +:+ t) false = None →
  sub r repl ("{{" +:+ String c w +:+ t) = "{{" +:+ String c w +:+ sub r repl t.
Proof.
  intros Hw Hno.
  change ("{{" +:+ String c w +:+ ?x) with (String "{" (String "{" (String c w +:+ x))) in *.
  rewrite (sub_skip _ _ tokens_nonempty) by done.
  rewrite (sub_skip _ _ tokens_nonempty), sub_skip_run; [done..|].
  apply match_at_needs_braces. simpl in Hw. apply andb_true_iff in Hw as [Hc _].
  change (strip_prefix (String "{" "") (String c (w +:+ t)) = None).
  by apply (strip_prefix_excluded (not_char "{")).
Qed.
End Braces.

Section Runs.
Variable variables : gmap string string.
Variables pre t : string.
Hypothesis plain : all_chars (not_char "{") pre = true.

Lemma sweep_conditional_run :
  sweep_conditional variables (pre +:+ t) = pre +:+ sweep_conditional variables t.
Proof. apply sub_skip_run; [apply block_pattern_tokens | done]. Qed.

Lemma sweep_inverted_run :
  sweep_inverted variables (pre +:+ t) = pre +:+ sweep_inverted variables t.
Proof. apply sub_skip_run; [apply block_pattern_tokens | done]. Qed.

Lemma pass_simple_run :
  pass_simple variables (pre +:+ t) = pre +:+ pass_simple variables t.
Proof. apply sub_skip_run; [apply simple_pattern_tokens | done]. Qed.
End Runs.

(** ** Running a pass on a written-out template *)

Ltac pass_step :=
  match goal with
  | |- context [sweep_conditional ?v EmptyString] =>
      rewrite (sweep_conditional_nil v)
  | |- context [sweep_conditional ?v (String ?c ?s)] =>
      let r := eval vm_compute in (parse_block "#" (String c s)) in
      lazymatch r with
      | Some (?n, ?ct, ?p) =>
          rewrite (sweep_conditional_head v (String c s) n ct p)
            by (vm_compute; reflexivity)
      | None => rewrite (sweep_conditional_skip v c s) by (vm_compute; reflexivity)
      end
  | |- context [sweep_inverted ?v EmptyString] =>
      rewrite (sweep_inverted_nil v)
  | |- context [sweep_inverted ?v (String ?c ?s)] =>
      let r := eval vm_compute in (parse_block "^" (String c s)) in
      lazymatch r with
      | Some (?n, ?ct, ?p) =>
          rewrite (sweep_inverted_head v (String c s) n ct p)
            by (vm_compute; reflexivity)
      | None => rewrite (sweep_inverted_skip v c s) by (vm_compute; reflexivity)
      end
  | |- context [pass_default ?v EmptyString] =>
      rewrite (pass_default_nil v)
  | |- context [pass_default ?v (String ?c ?s)] =>
      let r := eval vm_compute in (parse_default (String c s)) in
      lazymatch r with
      | Some (?n, ?d, ?p) =>
          rewrite (pass_default_head v (String c s) n d p)
            by (vm_compute; reflexivity)
      | None => rewrite (pass_default_skip v c s) by (vm_compute; reflexivity)
      end
  | |- context [pass_simple ?v EmptyString] =>
      rewrite (pass_simple_nil v)
  | |- context [pass_simple ?v (String ?c ?s)] =>
      let r := eval vm_compute in (parse_simple (String c s)) in
      lazymatch r with
      | Some (?n, ?p) =>
          rewrite (pass_simple_head v (String c s) n p)
            by (vm_compute; reflexivity)
      | None => rewrite (pass_simple_skip v c s) by (vm_compute; reflexivity)
      end
  end.

Ltac join_strings := rewrite ?append_nil_r, ?append_nil_l, ?append_cons.

Ltac run_passes := repeat first [pass_step | progress join_strings].

Ltac unfold_process :=
  unfold process_template, pass_conditional, pass_inverted; simpl Nat.iter.

(** ** [re.sub] on a text followed by another

    When every match that starts in [a] ends in [a], whatever follows, the
    loop of [re.sub] works on [a] and on what follows one after the other. *)
Section SubApp.
Variable r : regex.
Variable repl : Match → string.
Hypothesis nonempty : ∀ s m rest,
  match_at r s false = Some (m, rest) → is_empty (m_whole m) = false.

Lemma match_at_nil_none : match_at r "" false = None.
Proof.
  destruct (match_at r "" false) as [[m rest]|] eqn:E; [|done].
  pose proof (nonempty _ _ _ E) as Hne.
  apply match_at_sound in E as [E _].
  destruct (m_whole m); [done|]. by rewrite append_cons in E.
Qed.

Lemma sub_app_bounded n a b :
  String.length a ≤ n →
  (∀ a1 a2, a = a1 +:+ a2 → is_empty a2 = false →
     match_at r (a2 +:+ b) false = followed_by b (match_at r a2 false)) →
  sub r repl (a +:+ b) = sub r repl a +:+ sub r repl b.
Proof.
  revert a. induction n as [|n IH]; intros a Hn H.
  - destruct a; [|simpl in Hn; lia].
    by rewrite (sub_nil r repl match_at_nil_none), !append_nil_l.
  - destruct a as [|c a];
      [by rewrite (sub_nil r repl match_at_nil_none), !append_nil_l|].
    pose proof (H "" (String c a) eq_refl eq_refl) as H0.
    destruct (match_at r (String c a) false) as [[m rest]|] eqn:E; simpl in H0.
    + rewrite (sub_head r repl nonempty _ _ _ E), (sub_head r repl nonempty _ _ _ H0).
      pose proof (nonempty _ _ _ E) as Hne.
      apply match_at_sound in E as [E _].
      rewrite append_assoc. f_equal. apply IH.
      * rewrite E, append_length in Hn. destruct (m_whole m); [done|].
        simpl in Hn. lia.
      * intros a1 a2 -> Ha2. apply (H (m_whole m +:+ a1)); [|done].
        by rewrite E, append_assoc.
    + rewrite append_cons, (sub_skip r repl nonempty) by done.
      rewrite (sub_skip r repl nonempty) by done.
      rewrite append_cons. f_equal. apply IH; [simpl in Hn; lia|].
      intros a1 a2 -> Ha2. by apply (H (String c a1)).
Qed.

Lemma sub_app a b :
  (∀ a1 a2, a = a1 +:+ a2 → is_empty a2 = false →
     match_at r (a2 +:+ b) false = followed_by b (match_at r a2 false)) →
  sub r repl (a +:+ b) = sub r repl a +:+ sub r repl b.
Proof. by apply (sub_app_bounded (String.length a)). Qed.
End SubApp.

(** ** Prefixes and runs of a text followed by another *)

Lemma strip_prefix_cons a p b s :
  strip_prefix (String a p) (String b s)
  = if Ascii.eqb a b then strip_prefix p s else None.
Proof. reflexivity. Qed.

Lemma strip_prefix_more l s t rest :
  strip_prefix l s = Some rest → strip_prefix l (s +:+ t) = Some (rest +:+ t).
Proof.
  intros ->%strip_prefix_Some. by rewrite append_assoc, strip_prefix_app_same.
Qed.

(** A prefix that [s] does not start with is not completed by a character
    the prefix does not hold. *)
Lemma strip_prefix_fails l s x t :
  strip_prefix l s = None → all_chars (not_char x) l = true →
  strip_prefix l (s +:+ String x t) = None.
Proof.
  revert s. induction l as [|a l IH]; intros s Hs Hl; [done|].
  simpl in Hl. apply andb_true_iff in Hl as [Ha Hl].
  destruct s as [|b s].
  - rewrite append_nil_l, strip_prefix_cons. unfold not_char in Ha.
    by destruct (Ascii.eqb a x).
  - rewrite append_cons, strip_prefix_cons. rewrite strip_prefix_cons in Hs.
    destruct (Ascii.eqb a b); [by apply IH | done].
Qed.

Lemma span_more p s x t :
  p x = false →
  span p (s +:+ String x t) = ((span p s).1, (span p s).2 +:+ String x t).
Proof.
  intros Hx. induction s as [|c s IH].
  - rewrite append_nil_l. simpl. by rewrite Hx.
  - rewrite append_cons. simpl. destruct (p c); [|done].
    rewrite IH. by destruct (span p s).
Qed.

(** A run that stops inside [s] stops there whatever follows [s]. *)
Lemma span_stops p s t :
  all_chars p s = false →
  span p (s +:+ t) = ((span p s).1, (span p s).2 +:+ t).
Proof.
  induction s as [|c s IH]; [done|]. rewrite append_cons. simpl.
  destruct (p c); [|done]. simpl. intros H. rewrite IH by done.
  by destruct (span p s).
Qed.

Lemma span_rest p s : all_chars p s = false →
  ∃ c rest, (span p s).2 = String c rest ∧ p c = false.
Proof.
  induction s as [|c s IH]; [done|]. simpl. destruct (p c) eqn:Hc.
  - simpl. intros (c' & rest & E & Hc')%IH. exists c', rest.
    by destruct (span p s).
  - intros _. by exists c, s.
Qed.

(** A prefix that a long enough text does not start with. *)
Lemma strip_prefix_long l x t :
  strip_prefix l x = None → String.length l ≤ String.length x →
  strip_prefix l (x +:+ t) = None.
Proof.
  revert x. induction l as [|a l IH]; intros x H Hlen; [done|].
  destruct x as [|b x]; [simpl in Hlen; lia|].
  rewrite append_cons, strip_prefix_cons. rewrite strip_prefix_cons in H.
  destruct (Ascii.eqb a b); [|done]. apply IH; [done|]. simpl in Hlen. lia.
Qed.

Lemma find_first_sound needle s a b :
  find_first needle s = Some (a, b) → s = a +:+ needle +:+ b.
Proof.
  revert a. induction s as [|c s IH]; intros a H; rewrite find_first_unfold in H.
  - destruct (strip_prefix needle "") as [post|] eqn:E; [|done].
    injection H as <- <-. by apply strip_prefix_Some in E.
  - destruct (strip_prefix needle (String c s)) as [post|] eqn:E.
    + injection H as <- <-. by apply strip_prefix_Some in E.
    + destruct (find_first needle s) as [[a0 b0]|] eqn:E'; [|done].
      injection H as <- <-. by rewrite (IH a0 eq_refl).
Qed.

(** The first occurrence in [s] is the first occurrence in [s] followed by
    more text. *)
Lemma find_first_more needle s a b t :
  find_first needle s = Some (a, b) →
  find_first needle (s +:+ t) = Some (a, b +:+ t).
Proof.
  revert a. induction s as [|c s IH]; intros a H; rewrite find_first_unfold in H.
  - destruct (strip_prefix needle "") as [post|] eqn:E; [|done].
    injection H as <- <-.
    by rewrite find_first_unfold, (strip_prefix_more _ _ _ _ E).
  - destruct (strip_prefix needle (String c s)) as [post|] eqn:E.
    + injection H as <- <-.
      by rewrite find_first_unfold, (strip_prefix_more _ _ _ _ E).
    + destruct (find_first needle s) as [[a0 b0]|] eqn:E'; [|done].
      injection H as <- <-.
      rewrite find_first_unfold, strip_prefix_long; [|done|].
      * rewrite append_cons. by rewrite (IH a0 eq_refl).
      * apply find_first_sound in E' as ->. simpl. rewrite !append_length. lia.
Qed.

(** ** Matches that start before an opening [{{]

    A plain-variable match that starts before a [{{] ends before it: the
    name cannot run over a brace and [}}] cannot be completed by one. *)
Lemma parse_simple_app a t :
  is_empty a = false →
  parse_simple (a +:+ "{{" +:+ t)
  = match parse_simple a with
    | Some (name, post) => Some (name, post +:+ "{{" +:+ t)
    | None => None
    end.
Proof.
  intros Ha. unfold parse_simple at 2.
  destruct (strip_prefix "{{" a) as [s1|] eqn:E1.
  - unfold parse_simple. rewrite (strip_prefix_more _ _ _ _ E1).
    change ("{{" +:+ t) with (String "{" (String "{" t)).
    rewrite span_more by done. destruct (span is_word s1) as [name s2].
    cbn [fst snd]. cbv beta iota.
    destruct (is_empty name); [done|].
    destruct (strip_prefix "}}" s2) as [post|] eqn:E3.
    + by rewrite (strip_prefix_more _ _ _ _ E3).
    + by rewrite strip_prefix_fails.
  - unfold parse_simple.
    change ("{{" +:+ t) with (String "{" (String "{" t)).
    destruct a as [|c1 [|c2 a]]; [done| |].
    + rewrite append_cons, append_nil_l, !strip_prefix_cons.
      destruct (Ascii.eqb "{" c1); [|done]. by rewrite Ascii.eqb_refl.
    + rewrite !append_cons, !strip_prefix_cons. rewrite !strip_prefix_cons in E1.
      by destruct (Ascii.eqb "{" c1), (Ascii.eqb "{" c2).
Qed.

(** The same for a defaulted variable, unless it is left open at the end of
    the text: then the default runs on over the [{{]. *)
Lemma parse_default_app a t :
  is_empty a = false → open_default a = false →
  parse_default (a +:+ "{{" +:+ t)
  = match parse_default a with
    | Some (name, dflt, post) => Some (name, dflt, post +:+ "{{" +:+ t)
    | None => None
    end.
Proof.
  intros Ha Hopen. unfold parse_default at 2. unfold open_default in Hopen.
  destruct (strip_prefix "{{" a) as [s1|] eqn:E1.
  - unfold parse_default. rewrite (strip_prefix_more _ _ _ _ E1).
    change ("{{" +:+ t) with (String "{" (String "{" t)).
    rewrite span_more by done. destruct (span is_word s1) as [name s2].
    cbn [fst snd]. cbv beta iota.
    destruct (is_empty name); [done|].
    destruct (strip_prefix "|default:" s2) as [s3|] eqn:E3.
    + rewrite (strip_prefix_more _ _ _ _ E3), span_stops by done.
      destruct (span_rest _ _ Hopen) as (c & rest & E4 & Hc).
      destruct (span (not_char "}") s3) as [dflt s4]. cbn [fst snd] in *.
      cbv beta iota. subst s4.
      destruct (is_empty dflt); [done|].
      destruct (strip_prefix "}}" (String c rest)) as [post|] eqn:E5.
      * by rewrite (strip_prefix_more _ _ _ _ E5).
      * by rewrite strip_prefix_fails.
    + by rewrite strip_prefix_fails.
  - unfold parse_default.
    change ("{{" +:+ t) with (String "{" (String "{" t)).
    destruct a as [|c1 [|c2 a]]; [done| |].
    + rewrite append_cons, append_nil_l, !strip_prefix_cons.
      destruct (Ascii.eqb "{" c1); [|done]. by rewrite Ascii.eqb_refl.
    + rewrite !append_cons, !strip_prefix_cons. rewrite !strip_prefix_cons in E1.
      by destruct (Ascii.eqb "{" c1), (Ascii.eqb "{" c2).
Qed.

Lemma dangling_default_unfold s :
  dangling_default s
  = open_default s
    || match s with
       | EmptyString => false
       | String _ s' => dangling_default s'
       end.
Proof. by destruct s. Qed.

Lemma dangling_default_suffix a1 a2 :
  dangling_default (a1 +:+ a2) = false → open_default a2 = false.
Proof.
  induction a1 as [|c a1 IH].
  - rewrite append_nil_l, dangling_default_unfold. by intros [? _]%orb_false_elim.
  - rewrite append_cons, dangling_default_unfold.
    intros [_ H]%orb_false_elim. by apply IH.
Qed.

Lemma no_brace_no_dangling s :
  all_chars (not_char "{") s = true → dangling_default s = false.
Proof.
  induction s as [|c s IH]; [done|]. rewrite dangling_default_unfold.
  cbn [all_chars]. intros [Hc H]%andb_true_iff.
  rewrite IH, orb_false_r by done. unfold open_default.
  rewrite strip_prefix_cons. unfold not_char in Hc. rewrite Ascii.eqb_sym in Hc.
  by destruct (Ascii.eqb "{" c).
Qed.

Section PassApp.
Variable variables : gmap string string.

(** The plain-variable pass works on the text before a [{{] and on the text
    from it on, one after the other: whatever the text before is. *)
Lemma pass_simple_app a t :
  pass_simple variables (a +:+ "{{" +:+ t)
  = pass_simple variables a +:+ pass_simple variables ("{{" +:+ t).
Proof.
  apply (sub_app _ _ simple_pattern_nonempty). intros a1 a2 _ Ha2.
  rewrite !match_at_simple, parse_simple_app by done.
  by destruct (parse_simple a2) as [[name post]|].
Qed.

(** So does the defaulted-variable pass, when no defaulted variable is left
    open before the [{{]. *)
Lemma pass_default_app a t :
  dangling_default a = false →
  pass_default variables (a +:+ "{{" +:+ t)
  = pass_default variables a +:+ pass_default variables ("{{" +:+ t).
Proof.
  intros Ha. apply (sub_app _ _ default_pattern_nonempty). intros a1 a2 -> Ha2.
  rewrite !match_at_default, parse_default_app;
    [|done|by eapply dangling_default_suffix].
  by destruct (parse_default a2) as [[[name dflt] post]|].
Qed.
End PassApp.

(** ** Text without an opening tag *)

Lemma contains_cons_false needle c s :
  contains needle (String c s) = false →
  strip_prefix needle (String c s) = None ∧ contains needle s = false.
Proof.
  unfold contains. rewrite find_first_unfold.
  destruct (strip_prefix needle (String c s)); [done|].
  by destruct (find_first needle s) as [[? ?]|].
Qed.

Lemma contains_find_first needle s :
  contains needle s = false → find_first needle s = None.
Proof. unfold contains. by destruct (find_first needle s). Qed.

(** An opening tag is not completed by the braces of the next tag. *)
Lemma block_not_before sigil a t :
  not_char "{" sigil = true → is_empty a = false →
  strip_prefix (String "{" (String "{" (String sigil ""))) a = None →
  parse_block sigil (a +:+ "{{" +:+ t) = None.
Proof.
  intros Hs Ha E. unfold parse_block.
  assert (strip_prefix (String "{" (String "{" (String sigil "")))
            (a +:+ "{{" +:+ t) = None) as ->; [|done].
  change ("{{" +:+ t) with (String "{" (String "{" t)).
  unfold not_char in Hs.
  destruct a as [|c1 [|c2 [|c3 a]]]; [done| | |].
  - rewrite append_cons, append_nil_l, !strip_prefix_cons.
    destruct (Ascii.eqb "{" c1); [|done]. rewrite Ascii.eqb_refl.
    by destruct (Ascii.eqb sigil "{").
  - rewrite !append_cons, append_nil_l, !strip_prefix_cons.
    destruct (Ascii.eqb "{" c1), (Ascii.eqb "{" c2); try done.
    by destruct (Ascii.eqb sigil "{").
  - rewrite !append_cons, !strip_prefix_cons. rewrite !strip_prefix_cons in E.
    by destruct (Ascii.eqb "{" c1), (Ascii.eqb "{" c2), (Ascii.eqb sigil c3).
Qed.

Lemma sub_block_none sigil repl s :
  contains (String "{" (String "{" (String sigil ""))) s = false →
  sub (block_pattern sigil) repl s = s.
Proof.
  induction s as [|c s IH]; intros H.
  - apply sub_nil. by rewrite match_at_block.
  - apply contains_cons_false in H as [H1 H2].
    rewrite (sub_skip _ _ (block_pattern_nonempty sigil)), IH; [done..|].
    rewrite match_at_block. unfold parse_block. by rewrite H1.
Qed.

Lemma pass_conditional_none variables s :
  contains "{{#" s = false → pass_conditional variables s = s.
Proof.
  intros H. unfold pass_conditional, sweep_conditional, conditional_pattern.
  simpl Nat.iter. by rewrite !(sub_block_none "#" _ s).
Qed.

Lemma pass_inverted_none variables s :
  contains "{{^" s = false → pass_inverted variables s = s.
Proof.
  intros H. unfold pass_inverted, sweep_inverted, inverted_pattern.
  simpl Nat.iter. by rewrite !(sub_block_none "^" _ s).
Qed.

Lemma process_template_no_opener variables s :
  contains "{{#" s = false → contains "{{^" s = false →
  process_template s variables = pass_simple variables (pass_default variables s).
Proof.
  intros H1 H2. unfold process_template.
  by rewrite pass_conditional_none, pass_inverted_none.
Qed.

(** ** Blocks that are closed before an opening [{{]

    A block whose closing tag stands before a [{{] ends before it, and the
    braces cannot complete an opening tag: a sweep works on the text before
    the [{{] and on the text from it on, one after the other, unless a block
    is left open. *)
Lemma parse_block_app sigil a t :
  not_char "{" sigil = true → is_empty a = false → open_block sigil a = false →
  parse_block sigil (a +:+ "{{" +:+ t)
  = match parse_block sigil a with
    | Some (name, content, post) => Some (name, content, post +:+ "{{" +:+ t)
    | None => None
    end.
Proof.
  intros Hs Ha Hopen. unfold parse_block at 2. unfold open_block in Hopen.
  destruct (strip_prefix _ a) as [s1|] eqn:E1; [|by apply block_not_before].
  unfold parse_block. rewrite (strip_prefix_more _ _ _ _ E1).
  change ("{{" +:+ t) with (String "{" (String "{" t)).
  rewrite span_more by done. destruct (span is_word s1) as [name s2].
  cbn [fst snd]. cbv beta iota in Hopen |- *.
  destruct (is_empty name); [done|].
  destruct (strip_prefix "}}" s2) as [s3|] eqn:E3.
  - rewrite (strip_prefix_more _ _ _ _ E3).
    apply negb_false_iff in Hopen. unfold contains in Hopen.
    destruct (find_first (close_tag name) s3) as [[content post]|] eqn:E4; [|done].
    by rewrite (find_first_more _ _ _ _ _ E4).
  - by rewrite strip_prefix_fails.
Qed.

Lemma dangling_block_unfold sigil s :
  dangling_block sigil s
  = open_block sigil s
    || match s with
       | EmptyString => false
       | String _ s' => dangling_block sigil s'
       end.
Proof. by destruct s. Qed.

Lemma dangling_block_suffix sigil a1 a2 :
  dangling_block sigil (a1 +:+ a2) = false → open_block sigil a2 = false.
Proof.
  induction a1 as [|c a1 IH].
  - rewrite append_nil_l, dangling_block_unfold. by intros [? _]%orb_false_elim.
  - rewrite append_cons, dangling_block_unfold.
    intros [_ H]%orb_false_elim. by apply IH.
Qed.

Lemma no_opener_no_dangling sigil s :
  contains (String "{" (String "{" (String sigil ""))) s = false →
  dangling_block sigil s = false.
Proof.
  induction s as [|c s IH]; intros H; [done|].
  apply contains_cons_false in H as [H1 H2].
  rewrite dangling_block_unfold, IH, orb_false_r by done.
  unfold open_block. by rewrite H1.
Qed.

Lemma sub_block_app sigil repl a t :
  not_char "{" sigil = true → dangling_block sigil a = false →
  sub (block_pattern sigil) repl (a +:+ "{{" +:+ t)
  = sub (block_pattern sigil) repl a +:+ sub (block_pattern sigil) repl ("{{" +:+ t).
Proof.
  intros Hs Ha. apply (sub_app _ _ (block_pattern_nonempty sigil)).
  intros a1 a2 -> Ha2.
  rewrite !match_at_block, parse_block_app;
    [|done|done|by eapply dangling_block_suffix].
  by destruct (parse_block sigil a2) as [[[name content] post]|].
Qed.

Lemma sweep_conditional_app variables a t :
  dangling_block "#" a = false →
  sweep_conditional variables (a +:+ "{{" +:+ t)
  = sweep_conditional variables a +:+ sweep_conditional variables ("{{" +:+ t).
Proof. intros H. by apply (sub_block_app "#"). Qed.

Lemma sweep_inverted_app variables a t :
  dangling_block "^" a = false →
  sweep_inverted variables (a +:+ "{{" +:+ t)
  = sweep_inverted variables a +:+ sweep_inverted variables ("{{" +:+ t).
Proof. intros H. by apply (sub_block_app "^"). Qed.

(** What [settled] says, step by step. *)
Lemma settled_steps variables pre :
  settled variables pre = true →
  let p1 := sweep_conditional variables pre in
  let p2 := sweep_conditional variables p1 in
  let p3 := sweep_conditional variables p2 in
  let q1 := sweep_inverted variables p3 in
  let q2 := sweep_inverted variables q1 in
  let q3 := sweep_inverted variables q2 in
  dangling_block "#" pre = false ∧ dangling_block "#" p1 = false
  ∧ dangling_block "#" p2 = false
  ∧ dangling_block "^" p3 = false ∧ dangling_block "^" q1 = false
  ∧ dangling_block "^" q2 = false
  ∧ dangling_default q3 = false.
Proof.
  unfold settled. cbv zeta. rewrite !andb_true_iff, !negb_true_iff. tauto.
Qed.

(** Text without an opening tag and without a defaulted variable left open
    is settled. *)
Lemma no_opener_settled variables pre :
  contains "{{#" pre = false → contains "{{^" pre = false →
  dangling_default pre = false →
  settled variables pre = true.
Proof.
  intros H1 H2 H3. unfold settled, sweep_conditional, sweep_inverted,
    conditional_pattern, inverted_pattern. cbv zeta.
  rewrite !(sub_block_none "#" _ pre), !(sub_block_none "^" _ pre) by done.
  by rewrite !no_opener_no_dangling, H3.
Qed.

(** ** Tags that no pattern matches, among other text *)

Lemma parse_block_sigil sigil c t :
  Ascii.eqb sigil c = false → parse_block sigil ("{{" +:+ String c t) = None.
Proof.
  intros H. unfold parse_block.
  change ("{{" +:+ String c t) with (String "{" (String "{" (String c t))).
  by rewrite !strip_prefix_cons, !Ascii.eqb_refl, H.
Qed.

Lemma parse_default_not_name c t :
  is_word c = false → parse_default ("{{" +:+ String c t) = None.
Proof.
  intros H. unfold parse_default. rewrite strip_prefix_app_same.
  cbn [span]. by rewrite H.
Qed.

Lemma parse_simple_not_name c t :
  is_word c = false → parse_simple ("{{" +:+ String c t) = None.
Proof.
  intros H. unfold parse_simple. rewrite strip_prefix_app_same.
  cbn [span]. by rewrite H.
Qed.

Section Inert.
Variable variables : gmap string string.
Variables (c : ascii) (w : string).
Hypothesis plain : all_chars (not_char "{") (String c w) = true.

Lemma sweep_conditional_tag t :
  Ascii.eqb "#" c = false →
  sweep_conditional variables ("{{" +:+ String c w +:+ t)
  = "{{" +:+ String c w +:+ sweep_conditional variables t.
Proof.
  intros H. apply sub_skip_tag; [apply block_pattern_tokens|done|].
  unfold conditional_pattern. rewrite match_at_block, (append_cons c w).
  by rewrite parse_block_sigil.
Qed.

Lemma sweep_inverted_tag t :
  Ascii.eqb "^" c = false →
  sweep_inverted variables ("{{" +:+ String c w +:+ t)
  = "{{" +:+ String c w +:+ sweep_inverted variables t.
Proof.
  intros H. apply sub_skip_tag; [apply block_pattern_tokens|done|].
  unfold inverted_pattern. rewrite match_at_block, (append_cons c w).
  by rewrite parse_block_sigil.
Qed.

Lemma pass_default_unread t :
  parse_default ("{{" +:+ String c w +:+ t) = None →
  pass_default variables ("{{" +:+ String c w +:+ t)
  = "{{" +:+ String c w +:+ pass_default variables t.
Proof.
  intros H. apply sub_skip_tag; [apply default_pattern_tokens|done|].
  by rewrite match_at_default, H.
Qed.

Lemma pass_simple_unread t :
  parse_simple ("{{" +:+ String c w +:+ t) = None →
  pass_simple variables ("{{" +:+ String c w +:+ t)
  = "{{" +:+ String c w +:+ pass_simple variables t.
Proof.
  intros H. apply sub_skip_tag; [apply simple_pattern_tokens|done|].
  by rewrite match_at_simple, H.
Qed.

Lemma pass_default_tag t :
  is_word c = false →
  pass_default variables ("{{" +:+ String c w +:+ t)
  = "{{" +:+ String c w +:+ pass_default variables t.
Proof.
  intros H. apply pass_default_unread.
  by rewrite (append_cons c w), parse_default_not_name.
Qed.

Lemma pass_simple_tag t :
  is_word c = false →
  pass_simple variables ("{{" +:+ String c w +:+ t)
  = "{{" +:+ String c w +:+ pass_simple variables t.
Proof.
  intros H. apply pass_simple_unread.
  by rewrite (append_cons c w), parse_simple_not_name.
Qed.

(** A tag-like text that no pattern matches, whatever follows it: after
    text that leaves nothing open, it is copied, and the texts on either
    side are processed as if they stood alone. *)
Lemma unread_tag_in_context pre post :
  settled variables pre = true →
  Ascii.eqb "#" c = false → Ascii.eqb "^" c = false →
  (∀ t, parse_default ("{{" +:+ String c w +:+ t) = None) →
  (∀ t, parse_simple ("{{" +:+ String c w +:+ t) = None) →
  process_template (pre +:+ "{{" +:+ String c w +:+ post) variables
  = process_template pre variables +:+ "{{" +:+ String c w
    +:+ process_template post variables.
Proof.
  intros (Hp0 & Hp1 & Hp2 & Hp3 & Hq1 & Hq2 & Hq3)%settled_steps Hc1 Hc2 Hd Hs.
  cbv zeta in *. unfold_process.
  rewrite sweep_conditional_app, sweep_conditional_tag by done.
  rewrite sweep_conditional_app, sweep_conditional_tag by done.
  rewrite sweep_conditional_app, sweep_conditional_tag by done.
  rewrite sweep_inverted_app, sweep_inverted_tag by done.
  rewrite sweep_inverted_app, sweep_inverted_tag by done.
  rewrite sweep_inverted_app, sweep_inverted_tag by done.
  rewrite pass_default_app, pass_default_unread by done.
  by rewrite pass_simple_app, pass_simple_unread.
Qed.
End Inert.

(** So it is for a tag-like text that begins with a character other than a
    word character, [#] and [^]. *)
Lemma inert_tag_in_context variables pre c w post :
  settled variables pre = true →
  is_word c = false → Ascii.eqb "#" c = false → Ascii.eqb "^" c = false →
  all_chars (not_char "{") (String c w) = true →
  process_template (pre +:+ "{{" +:+ String c w +:+ post) variables
  = process_template pre variables +:+ "{{" +:+ String c w
    +:+ process_template post variables.
Proof.
  intros Hp Hc Hc1 Hc2 Hw. apply unread_tag_in_context; try done.
  - intros t. by rewrite (append_cons c w), parse_default_not_name.
  - intros t. by rewrite (append_cons c w), parse_simple_not_name.
Qed.

(** Text in braces, closed by [}}], that is no plain variable is none
    whatever follows it; and likewise for a defaulted variable. *)
Lemma parse_simple_closed u t :
  parse_simple ("{{" +:+ u +:+ "}}") = None →
  parse_simple ("{{" +:+ u +:+ "}}" +:+ t) = None.
Proof.
  unfold parse_simple. rewrite !strip_prefix_app_same.
  change ("}}" +:+ t) with (String "}" (String "}" t)).
  change (u +:+ "}}") with (u +:+ String "}" "}").
  rewrite !span_more by done. destruct (span is_word u) as [name s2].
  cbn [fst snd]. cbv beta iota. destruct (is_empty name); [done|].
  destruct (strip_prefix "}}" (s2 +:+ String "}" "}")) eqn:E; [done|]. intros _.
  change (String "}" (String "}" t)) with ("}}" +:+ t).
  rewrite <- append_assoc. rewrite strip_prefix_long; [done..|].
  rewrite append_length. simpl. lia.
Qed.

Lemma parse_default_closed u t :
  parse_default ("{{" +:+ u +:+ "}}") = None →
  parse_default ("{{" +:+ u +:+ "}}" +:+ t) = None.
Proof.
  unfold parse_default. rewrite !strip_prefix_app_same.
  change ("}}" +:+ t) with (String "}" (String "}" t)).
  change (u +:+ "}}") with (u +:+ String "}" "}").
  rewrite !span_more by done. destruct (span is_word u) as [name s2].
  cbn [fst snd]. cbv beta iota. destruct (is_empty name); [done|].
  destruct (strip_prefix "|default:" s2) as [s3|] eqn:E3.
  - rewrite !(strip_prefix_more _ _ _ _ E3), !span_more by done.
    destruct (span (not_char "}") s3) as [dflt s4].
    cbn [fst snd]. cbv beta iota. destruct (is_empty dflt); [done|].
    destruct (strip_prefix "}}" (s4 +:+ String "}" "}")) eqn:E; [done|]. intros _.
    change (String "}" (String "}" t)) with ("}}" +:+ t).
    rewrite <- append_assoc. rewrite strip_prefix_long; [done..|].
    rewrite append_length. simpl. lia.
  - by rewrite !strip_prefix_fails.
Qed.

(** Text in braces that is no tag of any pass, among other text. *)
Lemma closed_tag_in_context variables pre c w post :
  settled variables pre = true →
  all_chars (not_char "{") (String c w) = true →
  Ascii.eqb "#" c = false → Ascii.eqb "^" c = false →
  parse_default ("{{" +:+ String c w +:+ "}}") = None →
  parse_simple ("{{" +:+ String c w +:+ "}}") = None →
  process_template (pre +:+ "{{" +:+ String c w +:+ "}}" +:+ post) variables
  = process_template pre variables +:+ "{{" +:+ String c w +:+ "}}"
    +:+ process_template post variables.
Proof.
  intros Hp Hw Hc1 Hc2 Hd Hs.
  rewrite <- !(append_assoc (String c w) "}}"), (append_cons c w "}}").
  apply unread_tag_in_context; try done.
  - cbn [all_chars] in *. rewrite all_chars_app.
    apply andb_true_iff in Hw as [-> ->]. done.
  - intros t. rewrite <- (append_cons c w "}}"), append_assoc.
    by apply parse_default_closed.
  - intros t. rewrite <- (append_cons c w "}}"), append_assoc.
    by apply parse_simple_closed.
Qed.

(** An opening tag whose name has no closing tag in the rest of the text. *)
Lemma parse_block_mismatch_post sigil a b content post :
  is_name a = true → is_name b = true → a ≠ b →
  all_chars (not_char "{") content = true →
  contains (close_tag a) post = false →
  parse_block sigil (open_tag sigil a +:+ content +:+ close_tag b +:+ post) = None.
Proof.
  intros [Hne Ha]%is_name_inv [_ Hb]%is_name_inv Hab Hc Hpost.
  unfold parse_block, open_tag. rewrite !append_assoc, strip_prefix_app_same.
  change ("}}" +:+ ?x) with (String "}" (String "}" x)).
  rewrite span_app_stop by done. rewrite Hne.
  change (String "}" (String "}" ?x)) with ("}}" +:+ x).
  rewrite strip_prefix_app_same.
  change (close_tag a) with (String "{" ("{/" +:+ a +:+ "}}")).
  rewrite find_first_skip by done.
  change (String "{" ("{/" +:+ a +:+ "}}")) with (close_tag a).
  rewrite find_first_skip_close by done.
  by rewrite (contains_find_first _ _ Hpost).
Qed.

Lemma open_tag_shape sigil a content t :
  open_tag sigil a +:+ content +:+ t
  = "{{" +:+ String sigil (a +:+ "}}" +:+ content) +:+ t.
Proof. unfold open_tag. by rewrite !append_cons, !append_nil_l, !append_assoc. Qed.

Lemma close_tag_shape b t :
  close_tag b +:+ t = "{{" +:+ String "/" (b +:+ "}}") +:+ t.
Proof. unfold close_tag. by rewrite !append_cons, !append_nil_l, !append_assoc. Qed.

(** A block whose closing tag bears another name, after text that leaves
    nothing open and before text without an opening tag and without a
    closing tag of its own name: it is copied, and the texts on either side
    are processed as if they stood alone. *)
Lemma mismatched_block_in_context variables (sigil : ascii) pre a b content post :
  sigil = "#"%char ∨ sigil = "^"%char →
  settled variables pre = true →
  is_name a = true → is_name b = true → a ≠ b →
  all_chars (not_char "{") content = true →
  contains "{{#" post = false → contains "{{^" post = false →
  contains (close_tag a) post = false →
  process_template
    (pre +:+ open_tag sigil a +:+ content +:+ close_tag b +:+ post) variables
  = process_template pre variables
    +:+ open_tag sigil a +:+ content +:+ close_tag b
    +:+ process_template post variables.
Proof.
  intros Hs (Hp0 & Hp1 & Hp2 & Hp3 & Hq1 & Hq2 & Hq3)%settled_steps
    Ha Hb Hab Hc Hr1 Hr2 Hr3.
  cbv zeta in *.
  pose proof Ha as [_ Ha']%is_name_inv. pose proof Hb as [_ Hb']%is_name_inv.
  assert (all_chars (not_char "{") (String sigil (a +:+ "}}" +:+ content)) = true)
    as Hw1.
  { cbn [all_chars]. rewrite !all_chars_app, word_no_brace, Hc by done.
    by destruct Hs as [-> | ->]. }
  assert (all_chars (not_char "{") (String "/" (b +:+ "}}")) = true) as Hw2.
  { cbn [all_chars]. by rewrite !all_chars_app, word_no_brace. }
  assert (is_word sigil = false) as Hsw by (by destruct Hs as [-> | ->]).
  assert (∀ s, parse_block s
            (open_tag sigil a +:+ content +:+ close_tag b +:+ post) = None)
    as Hblock.
  { intros s. destruct (Ascii.eqb s sigil) eqn:E.
    - apply ascii_eqb_true in E as ->. by apply parse_block_mismatch_post.
    - rewrite open_tag_shape. by apply parse_block_sigil. }
  rewrite (process_template_no_opener _ post) by done.
  set (block := open_tag sigil a +:+ content +:+ close_tag b +:+ post).
  assert (sweep_conditional variables block = block) as H1.
  { unfold sweep_conditional, conditional_pattern, block.
    rewrite open_tag_shape.
    rewrite sub_skip_tag; [|apply block_pattern_tokens|done|].
    - rewrite close_tag_shape, sub_skip_tag;
        [|apply block_pattern_tokens|done|].
      + by rewrite (sub_block_none "#" _ post).
      + by rewrite match_at_block, (append_cons "/"), parse_block_sigil.
    - by rewrite <- open_tag_shape, match_at_block, Hblock. }
  assert (sweep_inverted variables block = block) as H2.
  { unfold sweep_inverted, inverted_pattern, block.
    rewrite open_tag_shape.
    rewrite sub_skip_tag; [|apply block_pattern_tokens|done|].
    - rewrite close_tag_shape, sub_skip_tag;
        [|apply block_pattern_tokens|done|].
      + by rewrite (sub_block_none "^" _ post).
      + by rewrite match_at_block, (append_cons "/"), parse_block_sigil.
    - by rewrite <- open_tag_shape, match_at_block, Hblock. }
  assert (block = "{{" +:+ String sigil (a +:+ "}}" +:+ content) +:+ close_tag b +:+ post)
    as Hshape by (unfold block; by rewrite open_tag_shape).
  assert (∀ p, dangling_block "#" p = false →
            sweep_conditional variables (p +:+ block)
            = sweep_conditional variables p +:+ block) as H1'.
  { intros p Hp. rewrite Hshape, sweep_conditional_app by done.
    by rewrite <- Hshape, H1. }
  assert (∀ p, dangling_block "^" p = false →
            sweep_inverted variables (p +:+ block)
            = sweep_inverted variables p +:+ block) as H2'.
  { intros p Hp. rewrite Hshape, sweep_inverted_app by done.
    by rewrite <- Hshape, H2. }
  unfold_process.
  replace (pre +:+ open_tag sigil a +:+ content +:+ close_tag b +:+ post)
    with (pre +:+ block) by done.
  rewrite !H1', !H2' by done. unfold block.
  rewrite open_tag_shape, close_tag_shape.
  rewrite pass_default_app, pass_default_tag, pass_default_tag by done.
  rewrite pass_simple_app, pass_simple_tag, pass_simple_tag by done.
  by rewrite <- close_tag_shape, <- (open_tag_shape sigil a content).
Qed.

(** ** Nested inverted blocks *)

Lemma find_first_skip_inverted_open n m t :
  all_chars is_word m = true →
  find_first (close_tag n) (open_tag "^" m +:+ t) =
  match find_first (close_tag n) t with
  | Some (a, b) => Some (open_tag "^" m +:+ a, b)
  | None => None
  end.
Proof.
  intros Hm.
  change (close_tag n) with ("{{" +:+ String "/" (n +:+ "}}")).
  change (open_tag "^" m +:+ t) with ("{{" +:+ String "^" (m +:+ "}}") +:+ t).
  rewrite (find_first_tag_skip _ "^" (m +:+ "}}") t); [| |done].
  - by destruct (find_first _ t) as [[a b]|].
  - simpl. by rewrite all_chars_app, word_no_brace.
Qed.

Lemma find_first_nest_inverted n names body t :
  is_name n = true → valid_names names → n ∉ names →
  all_chars (not_char "{") body = true →
  find_first (close_tag n) (nest_inverted names body +:+ t) =
  match find_first (close_tag n) t with
  | Some (a, b) => Some (nest_inverted names body +:+ a, b)
  | None => None
  end.
Proof.
  intros [_ Hn]%is_name_inv Hnames Hnot Hbody. revert t.
  induction Hnames as [|m names [_ Hm]%is_name_inv Hnames IH]; intros t.
  - simpl. by apply find_first_skip.
  - apply not_elem_of_cons in Hnot as [Hnm Hnot]. simpl nest_inverted.
    rewrite !append_assoc, find_first_skip_inverted_open, IH,
      find_first_skip_close by done.
    destruct (find_first _ t) as [[a b]|]; [|done]. by rewrite !append_assoc.
Qed.

Lemma open_tag_alone sigil a t :
  open_tag sigil a +:+ t = "{{" +:+ String sigil (a +:+ "}}") +:+ t.
Proof. unfold open_tag. by rewrite !append_cons, !append_nil_l, !append_assoc. Qed.

(** A pattern that matches neither [{{^...] nor [{{/...] copies nested
    inverted blocks. *)
Section SkipNest.
Variable r : regex.
Variable repl : Match → string.
Hypothesis tokens : matches_tokens r.
Hypothesis no_sigil : ∀ (c : ascii) t,
  c = "^"%char ∨ c = "/"%char → match_at r ("{{" +:+ String c t) false = None.

Lemma sub_nest_inverted names body t :
  valid_names names → all_chars (not_char "{") body = true →
  sub r repl (nest_inverted names body +:+ t)
  = nest_inverted names body +:+ sub r repl t.
Proof.
  intros Hv Hb. revert t.
  induction Hv as [|n names [_ Hn]%is_name_inv Hv IH]; intros t.
  - simpl. by apply sub_skip_run.
  - cbn [nest_inverted]. rewrite !append_assoc, open_tag_alone.
    rewrite sub_skip_tag; [|done| |].
    + rewrite IH, close_tag_shape, sub_skip_tag; [|done| |].
      * by rewrite <- close_tag_shape, <- open_tag_alone.
      * cbn [all_chars]. by rewrite all_chars_app, word_no_brace.
      * rewrite (append_cons "/"). apply no_sigil. by right.
    + cbn [all_chars]. by rewrite all_chars_app, word_no_brace.
    + rewrite (append_cons "^"). apply no_sigil. by left.
Qed.

Lemma sub_nest_inverted_alone names body :
  valid_names names → all_chars (not_char "{") body = true →
  sub r repl (nest_inverted names body) = nest_inverted names body.
Proof.
  intros Hv Hb. rewrite <- (append_nil_r (nest_inverted names body)) at 1.
  rewrite sub_nest_inverted by done.
  by rewrite (sub_no_token r repl ""), append_nil_r.
Qed.
End SkipNest.

Section InvertedNesting.
Variable variables : gmap string string.

Lemma sweep_inverted_nest n names body :
  is_name n = true → valid_names names → n ∉ names →
  all_chars (not_char "{") body = true →
  truthy (dict_get variables n "") = false →
  sweep_inverted variables (nest_inverted (n :: names) body)
  = nest_inverted names body.
Proof.
  intros Hn Hnames Hnot Hbody Ht. simpl nest_inverted.
  rewrite <- (append_nil_r (close_tag n)).
  rewrite (sweep_inverted_head _ _ n (nest_inverted names body) "").
  - by rewrite Ht, sweep_inverted_nil, append_nil_r.
  - apply parse_block_tag; [done|].
    by rewrite find_first_nest_inverted, find_first_here, append_nil_r.
Qed.

Lemma sweep_inverted_nest_dropped n names body :
  is_name n = true → valid_names names → n ∉ names →
  all_chars (not_char "{") body = true →
  truthy (dict_get variables n "") = true →
  sweep_inverted variables (nest_inverted (n :: names) body) = "".
Proof.
  intros Hn Hnames Hnot Hbody Ht. simpl nest_inverted.
  rewrite <- (append_nil_r (close_tag n)).
  rewrite (sweep_inverted_head _ _ n (nest_inverted names body) "").
  - by rewrite Ht, sweep_inverted_nil.
  - apply parse_block_tag; [done|].
    by rewrite find_first_nest_inverted, find_first_here, append_nil_r.
Qed.

Lemma sweep_inverted_plain body :
  all_chars (not_char "{") body = true →
  sweep_inverted variables body = body.
Proof.
  intros H. apply sub_no_token; [apply block_pattern_tokens|].
  by apply no_brace_no_token.
Qed.

Lemma sweeps_inverted_plain k body :
  all_chars (not_char "{") body = true →
  Nat.iter k (sweep_inverted variables) body = body.
Proof.
  intros H. induction k as [|k IH]; [done|]. simpl. rewrite IH.
  by apply sweep_inverted_plain.
Qed.

Lemma sweeps_inverted_nest k names body :
  valid_names names → NoDup names → falsy_names variables names →
  all_chars (not_char "{") body = true →
  Nat.iter k (sweep_inverted variables) (nest_inverted names body)
  = nest_inverted (drop k names) body.
Proof.
  intros Hv Hd Ht Hbody. induction k as [|k IH]; [by rewrite drop_0|].
  simpl Nat.iter. rewrite IH.
  replace (drop (S k) names) with (drop 1 (drop k names))
    by (rewrite drop_drop; f_equal; lia).
  assert (Hv' : valid_names (drop k names)) by (by apply Forall_drop).
  assert (Ht' : falsy_names variables (drop k names)) by (by apply Forall_drop).
  assert (Hd' : NoDup (drop k names)).
  { rewrite <- (take_drop k names) in Hd. by apply NoDup_app in Hd as (_ & _ & ?). }
  destruct (drop k names) as [|n rest]; [by apply sweep_inverted_plain|].
  simpl drop. apply NoDup_cons in Hd' as [? ?].
  apply Forall_cons in Hv' as [? ?]. apply Forall_cons in Ht' as [? ?].
  by apply sweep_inverted_nest.
Qed.

Lemma sweeps_inverted_resolve k names body :
  valid_names names → NoDup names →
  all_chars (not_char "{") body = true →
  length names ≤ k →
  Nat.iter k (sweep_inverted variables) (nest_inverted names body)
  = resolve_inverted variables names body.
Proof.
  intros Hv Hd Hbody. revert k.
  induction Hv as [|n names Hn Hv IH]; intros k Hk.
  - by apply sweeps_inverted_plain.
  - destruct k as [|k]; [simpl in Hk; lia|].
    apply NoDup_cons in Hd as [Hnot Hd]. rewrite Nat.iter_succ_r.
    simpl resolve_inverted. destruct (truthy (dict_get variables n "")) eqn:Ht.
    + rewrite sweep_inverted_nest_dropped by done. by apply sweeps_inverted_plain.
    + rewrite sweep_inverted_nest by done. apply IH; [done|]. simpl in Hk. lia.
Qed.

(** The other passes leave nested inverted blocks as they are. *)
Lemma pass_conditional_nest_inverted names body :
  valid_names names → all_chars (not_char "{") body = true →
  pass_conditional variables (nest_inverted names body) = nest_inverted names body.
Proof.
  intros Hv Hb. unfold pass_conditional, sweep_conditional. simpl Nat.iter.
  rewrite !(sub_nest_inverted_alone conditional_pattern); try done;
    try apply block_pattern_tokens.
  all: intros c t Hc; unfold conditional_pattern;
    rewrite match_at_block, parse_block_sigil; [done|]; by destruct Hc as [-> | ->].
Qed.

Lemma pass_default_nest_inverted names body :
  valid_names names → all_chars (not_char "{") body = true →
  pass_default variables (nest_inverted names body) = nest_inverted names body.
Proof.
  intros Hv Hb. apply sub_nest_inverted_alone; [apply default_pattern_tokens| |done..].
  intros c t Hc. rewrite match_at_default, parse_default_not_name; [done|].
  by destruct Hc as [-> | ->].
Qed.

Lemma pass_simple_nest_inverted names body :
  valid_names names → all_chars (not_char "{") body = true →
  pass_simple variables (nest_inverted names body) = nest_inverted names body.
Proof.
  intros Hv Hb. apply sub_nest_inverted_alone; [apply simple_pattern_tokens| |done..].
  intros c t Hc. rewrite match_at_simple, parse_simple_not_name; [done|].
  by destruct Hc as [-> | ->].
Qed.

Lemma resolve_inverted_no_token names body :
  all_chars (not_char "{") body = true →
  has_token (resolve_inverted variables names body) = false.
Proof.
  intros Hb. induction names as [|n names IH]; simpl.
  - by apply no_brace_no_token.
  - by destruct (truthy _).
Qed.

Lemma process_nest_inverted names body :
  valid_names names → all_chars (not_char "{") body = true →
  process_template (nest_inverted names body) variables
  = pass_simple variables
      (pass_default variables
         (pass_inverted variables (nest_inverted names body))).
Proof.
  intros Hv Hb. unfold process_template.
  by rewrite pass_conditional_nest_inverted.
Qed.
End InvertedNesting.

Lemma truthy_nonempty (v : string) : v ≠ "" → truthy v = true.
Proof. by destruct v. Qed.

Lemma process_positive_block variables :
  process_template "{{#X}}hi{{/X}}" variables =
  if truthy (dict_get variables "X" "") then "hi" else "".
Proof.
  unfold_process. pass_step. destruct (truthy _); by run_passes.
Qed.

Lemma process_inverted_block variables :
  process_template "{{^X}}hi{{/X}}" variables =
  if truthy (dict_get variables "X" "") then "" else "hi".
Proof.
  unfold_process. run_passes. destruct (truthy _); by run_passes.
Qed.

(** C1: a positive block is kept when its variable is present and non-empty
    and dropped otherwise.  The template [{{#X}}hi{{/X}}] gives the empty
    string when [X] is absent or empty and [hi] when [X] is any non-empty
    string; in one sweep of the pass, a block that follows text without an
    opening brace, and whose content runs up to the first closing tag of its
    name, is replaced by its content or by nothing, and the sweep goes on
    after the block. *)
Theorem conditional_follows_truthiness (variables : gmap string string) :
  (variables !! "X" = None →
     process_template "{{#X}}hi{{/X}}" variables = "")
  ∧ (variables !! "X" = Some "" →
     process_template "{{#X}}hi{{/X}}" variables = "")
  ∧ (∀ v, variables !! "X" = Some v → v ≠ "" →
     process_template "{{#X}}hi{{/X}}" variables = "hi")
  ∧ (∀ pre name content post,
       all_chars (not_char "{") pre = true →
       is_name name = true →
       find_first (close_tag name) (content +:+ close_tag name +:+ post)
         = Some (content, post) →
       sweep_conditional variables
         (pre +:+ open_tag "#" name +:+ content +:+ close_tag name +:+ post)
       = pre +:+ match variables !! name with
                 | Some v => if is_empty v then "" else content
                 | None => ""
                 end +:+ sweep_conditional variables post).
Proof.
  repeat split.
  - intros H. by rewrite process_positive_block, dict_get_lookup, H.
  - intros H. by rewrite process_positive_block, dict_get_lookup, H.
  - intros v H Hv.
    by rewrite process_positive_block, dict_get_lookup, H, truthy_nonempty.
  - intros pre name content post Hpre Hn Hc. rewrite sweep_conditional_run by done.
    rewrite (sweep_conditional_head _ _ name content post)
      by (by apply parse_block_tag).
    rewrite dict_get_lookup. unfold truthy.
    by destruct (variables !! name) as [[|c v]|].
Qed.

Lemma conditional_follows_truthiness_witness :
  process_template "{{#X}}hi{{/X}}" ∅ = ""
  ∧ process_template "{{#X}}hi{{/X}}" {[ "X" := "" ]} = ""
  ∧ process_template "{{#X}}hi{{/X}}" {[ "X" := "1" ]} = "hi"
  ∧ sweep_conditional {[ "X" := "1" ]}
      ("say " +:+ open_tag "#" "X" +:+ "hi" +:+ close_tag "X" +:+ "!")
    = "say " +:+ "hi" +:+ sweep_conditional {[ "X" := "1" ]} "!".
Proof.
  split; [|split; [|split]].
  - destruct (conditional_follows_truthiness ∅) as (H & _).
    apply H. reflexivity.
  - destruct (conditional_follows_truthiness {[ "X" := "" ]}) as (_ & H & _).
    apply H. reflexivity.
  - destruct (conditional_follows_truthiness {[ "X" := "1" ]}) as (_ & _ & H & _).
    apply (H "1"); [reflexivity | discriminate].
  - destruct (conditional_follows_truthiness {[ "X" := "1" ]}) as (_ & _ & _ & H).
    apply (H "say " "X" "hi" "!"); reflexivity.
Defined.

(** C2: a defaulted variable is governed by presence.  [{{X|default:foo}}]
    gives [foo] when [X] is absent and the empty string when [X] is set to
    the empty string.  In the pass, an occurrence of
    [{{NAME|default:DEFAULT}}], with [DEFAULT] a non-empty run of characters
    other than the closing brace, is replaced by the value of [NAME] whenever
    [NAME] is a key, and by [DEFAULT] as written when it is not; the text
    before it and the text after it are rewritten on their own.  This holds
    of every occurrence that does not stand in a defaulted variable left
    open before it, and so after any text without an opening brace.  An
    occurrence that follows [{{OUTER|default:] with no closing brace in
    between is part of the default of [OUTER]. *)
Theorem default_governed_by_presence (variables : gmap string string) :
  (variables !! "X" = None →
     process_template "{{X|default:foo}}" variables = "foo")
  ∧ (variables !! "X" = Some "" →
     process_template "{{X|default:foo}}" variables = "")
  ∧ (∀ pre name dflt post,
       dangling_default pre = false →
       is_name name = true →
       is_empty dflt = false → all_chars (not_char "}") dflt = true →
       pass_default variables
         (pre +:+ "{{" +:+ name +:+ "|default:" +:+ dflt +:+ "}}" +:+ post)
       = pass_default variables pre
         +:+ match variables !! name with Some v => v | None => dflt end
         +:+ pass_default variables post)
  ∧ (∀ pre, all_chars (not_char "{") pre = true →
       dangling_default pre = false ∧ pass_default variables pre = pre)
  ∧ (∀ pre outer text name dflt post,
       dangling_default pre = false →
       is_name outer = true → all_chars (not_char "}") text = true →
       all_chars (not_char "}") name = true →
       all_chars (not_char "}") dflt = true →
       pass_default variables
         (pre +:+ "{{" +:+ outer +:+ "|default:"
          +:+ (text +:+ "{{" +:+ name +:+ "|default:" +:+ dflt) +:+ "}}" +:+ post)
       = pass_default variables pre
         +:+ match variables !! outer with
             | Some v => v
             | None => text +:+ "{{" +:+ name +:+ "|default:" +:+ dflt
             end
         +:+ pass_default variables post).
Proof.
  assert (Hocc : ∀ pre name dflt post,
       dangling_default pre = false →
       is_name name = true →
       is_empty dflt = false → all_chars (not_char "}") dflt = true →
       pass_default variables
         (pre +:+ "{{" +:+ name +:+ "|default:" +:+ dflt +:+ "}}" +:+ post)
       = pass_default variables pre
         +:+ match variables !! name with Some v => v | None => dflt end
         +:+ pass_default variables post).
  { intros pre name dflt post Hpre Hn Hd1 Hd2. rewrite pass_default_app by done.
    rewrite (pass_default_head _
               ("{{" +:+ name +:+ "|default:" +:+ dflt +:+ "}}" +:+ post)
               name dflt post) by (by apply parse_default_tag).
    by rewrite dict_get_lookup. }
  split; [|split; [|split; [|split]]].
  - intros H. unfold_process. run_passes. rewrite dict_get_lookup, H.
    by run_passes.
  - intros H. unfold_process. run_passes. rewrite dict_get_lookup, H.
    by run_passes.
  - done.
  - intros pre Hpre. split; [by apply no_brace_no_dangling|].
    by apply pass_default_no_token, no_brace_no_token.
  - intros pre outer text name dflt post Hpre Ho Ht Hn Hd. apply Hocc; [done..| |].
    + by destruct text.
    + by rewrite !all_chars_app, Ht, Hn, Hd.
Qed.

Lemma default_governed_by_presence_witness :
  process_template "{{X|default:foo}}" ∅ = "foo"
  ∧ process_template "{{X|default:foo}}" {[ "X" := "" ]} = ""
  ∧ pass_default {[ "X" := "" ]}
      ("a: {} {{Y}} "
       +:+ "{{" +:+ "X" +:+ "|default:" +:+ "a b" +:+ "}}" +:+ "!")
    = pass_default {[ "X" := "" ]} "a: {} {{Y}} "
      +:+ "" +:+ pass_default {[ "X" := "" ]} "!"
  ∧ (dangling_default "x=" = false ∧ pass_default ∅ "x=" = "x=")
  ∧ pass_default ∅
      ("" +:+ "{{" +:+ "A" +:+ "|default:"
       +:+ ("" +:+ "{{" +:+ "B" +:+ "|default:" +:+ "y") +:+ "}}" +:+ "}}")
    = pass_default ∅ ""
      +:+ ("" +:+ "{{" +:+ "B" +:+ "|default:" +:+ "y")
      +:+ pass_default ∅ "}}".
Proof.
  split; [|split; [|split; [|split]]].
  - destruct (default_governed_by_presence ∅) as (H & _).
    apply H. reflexivity.
  - destruct (default_governed_by_presence {[ "X" := "" ]}) as (_ & H & _).
    apply H. reflexivity.
  - destruct (default_governed_by_presence {[ "X" := "" ]}) as (_ & _ & H & _).
    apply (H "a: {} {{Y}} " "X" "a b" "!"); reflexivity.
  - destruct (default_governed_by_presence ∅) as (_ & _ & _ & H & _).
    apply (H "x="). reflexivity.
  - destruct (default_governed_by_presence ∅) as (_ & _ & _ & _ & H).
    apply (H "" "A" "" "B" "y" "}}"); reflexivity.
Defined.

(** C2, counterexample: not every occurrence is replaced.  In
    [{{A|default:{{B|default:y}}}}] the occurrence [{{B|default:y}}] stands
    in the default of [A]: with [B] set to [v] and [A] absent, the default of
    [A] is written out and the output holds no [v].  And with an empty
    default, [{{X|default:}}] is not replaced by the empty default when [X]
    is absent. *)
Lemma default_occurrence_counterexample :
  pass_default {[ "B" := "v" ]} "{{A|default:{{B|default:y}}}}"
    = "{{B|default:y}}"
  ∧ process_template "{{A|default:{{B|default:y}}}}" {[ "B" := "v" ]}
    = "{{B|default:y}}"
  ∧ contains "v" (process_template "{{A|default:{{B|default:y}}}}" {[ "B" := "v" ]})
    = false
  ∧ process_template "{{X|default:}}" ∅ = "{{X|default:}}".
Proof. repeat split; vm_compute; reflexivity. Qed.

(** C4: the inverted block is the complement of the positive one.  For every
    mapping, either [X] is absent or empty, [{{^X}}hi{{/X}}] keeps [hi] and
    [{{#X}}hi{{/X}}] drops it, or [X] is a non-empty string and it is the
    other way round; and in one sweep of the inverted pass a block that
    follows text without an opening brace is replaced by its content exactly
    when its variable is absent or empty. *)
Theorem inverted_is_complement (variables : gmap string string) :
  (((variables !! "X" = None ∨ variables !! "X" = Some "")
    ∧ process_template "{{^X}}hi{{/X}}" variables = "hi"
    ∧ process_template "{{#X}}hi{{/X}}" variables = "")
   ∨ ((∃ v, variables !! "X" = Some v ∧ v ≠ "")
      ∧ process_template "{{^X}}hi{{/X}}" variables = ""
      ∧ process_template "{{#X}}hi{{/X}}" variables = "hi"))
  ∧ (∀ pre name content post,
       all_chars (not_char "{") pre = true →
       is_name name = true →
       find_first (close_tag name) (content +:+ close_tag name +:+ post)
         = Some (content, post) →
       sweep_inverted variables
         (pre +:+ open_tag "^" name +:+ content +:+ close_tag name +:+ post)
       = pre +:+ match variables !! name with
                 | Some v => if is_empty v then content else ""
                 | None => content
                 end +:+ sweep_inverted variables post).
Proof.
  split.
  - rewrite process_positive_block, process_inverted_block, dict_get_lookup.
    destruct (variables !! "X") as [[|c v]|] eqn:E; simpl.
    + left. by eauto.
    + right. split; [by exists (String c v)|done].
    + left. by eauto.
  - intros pre name content post Hpre Hn Hc. rewrite sweep_inverted_run by done.
    rewrite (sweep_inverted_head _ _ name content post)
      by (by apply parse_block_tag).
    rewrite dict_get_lookup. unfold truthy.
    by destruct (variables !! name) as [[|c v]|].
Qed.

Lemma inverted_is_complement_witness :
  sweep_inverted {[ "X" := "1" ]}
    ("say " +:+ open_tag "^" "Y" +:+ "hi" +:+ close_tag "Y" +:+ "!")
  = "say " +:+ "hi" +:+ sweep_inverted {[ "X" := "1" ]} "!".
Proof.
  destruct (inverted_is_complement {[ "X" := "1" ]}) as (_ & H).
  apply (H "say " "Y" "hi" "!"); reflexivity.
Defined.

(** C5: a plain variable reference is replaced by the value of the variable
    when it is a key of the mapping and by the empty string when it is not.
    In the last pass this holds of every occurrence of [{{NAME}}], whatever
    the text before it and after it, and these texts are rewritten on their
    own; so it holds of every occurrence in the text the first three passes
    leave.  Text without an opening brace is copied.  [{{X}}] gives the
    empty string with [X] absent and [a] with [X] set to [a], and
    [Hello {{NAME}}!] with [NAME] set to [world] gives [Hello world!]. *)
Theorem simple_substitution (variables : gmap string string) :
  (∀ pre name post,
     is_name name = true →
     pass_simple variables (pre +:+ "{{" +:+ name +:+ "}}" +:+ post)
     = pass_simple variables pre
       +:+ match variables !! name with Some v => v | None => "" end
       +:+ pass_simple variables post)
  ∧ (∀ template_content pre name post,
       is_name name = true →
       pass_default variables
         (pass_inverted variables (pass_conditional variables template_content))
       = pre +:+ "{{" +:+ name +:+ "}}" +:+ post →
       process_template template_content variables
       = pass_simple variables pre
         +:+ match variables !! name with Some v => v | None => "" end
         +:+ pass_simple variables post)
  ∧ (∀ pre, all_chars (not_char "{") pre = true → pass_simple variables pre = pre)
  ∧ (variables !! "NAME" = Some "world" →
     process_template "Hello {{NAME}}!" variables = "Hello world!")
  ∧ (variables !! "X" = None → process_template "{{X}}" variables = "")
  ∧ (variables !! "X" = Some "a" → process_template "{{X}}" variables = "a").
Proof.
  assert (Hocc : ∀ pre name post,
     is_name name = true →
     pass_simple variables (pre +:+ "{{" +:+ name +:+ "}}" +:+ post)
     = pass_simple variables pre
       +:+ match variables !! name with Some v => v | None => "" end
       +:+ pass_simple variables post).
  { intros pre name post Hn. rewrite pass_simple_app.
    rewrite (pass_simple_head _ ("{{" +:+ name +:+ "}}" +:+ post) name post)
      by (by apply parse_simple_tag).
    by rewrite dict_get_lookup. }
  split; [done|]. split; [|split; [|split; [|split]]].
  - intros t pre name post Hn Ht. unfold process_template. rewrite Ht.
    by apply Hocc.
  - intros pre Hpre. by apply pass_simple_no_token, no_brace_no_token.
  - intros H. unfold_process. run_passes. by rewrite dict_get_lookup, H.
  - intros H. unfold_process. run_passes. by rewrite dict_get_lookup, H.
  - intros H. unfold_process. run_passes. by rewrite dict_get_lookup, H.
Qed.

Lemma simple_substitution_witness :
  pass_simple {[ "NAME" := "world" ]}
      ("emptyDir: {} {{ x }} {{{" +:+ "{{" +:+ "NAME" +:+ "}}" +:+ "}!")
    = pass_simple {[ "NAME" := "world" ]} "emptyDir: {} {{ x }} {{{"
      +:+ "world" +:+ pass_simple {[ "NAME" := "world" ]} "}!"
  ∧ process_template "{{#A}}{{/A}}{ {{B|default:{}}} {{NAME}}" {[ "NAME" := "x" ]}
    = pass_simple {[ "NAME" := "x" ]} "{ {} "
      +:+ "x" +:+ pass_simple {[ "NAME" := "x" ]} ""
  ∧ pass_simple ∅ "a: b" = "a: b"
  ∧ process_template "Hello {{NAME}}!" {[ "NAME" := "world" ]} = "Hello world!"
  ∧ process_template "{{X}}" ∅ = ""
  ∧ process_template "{{X}}" {[ "X" := "a" ]} = "a".
Proof.
  split; [|split; [|split; [|split; [|split]]]].
  - destruct (simple_substitution {[ "NAME" := "world" ]}) as (H & _).
    apply (H "emptyDir: {} {{ x }} {{{" "NAME" "}!"). reflexivity.
  - destruct (simple_substitution {[ "NAME" := "x" ]}) as (_ & H & _).
    apply (H "{{#A}}{{/A}}{ {{B|default:{}}} {{NAME}}" "{ {} " "NAME" "");
      [reflexivity | vm_compute; reflexivity].
  - destruct (simple_substitution ∅) as (_ & _ & H & _).
    apply H. reflexivity.
  - destruct (simple_substitution {[ "NAME" := "world" ]}) as (_ & _ & _ & H & _).
    apply H. reflexivity.
  - destruct (simple_substitution ∅) as (_ & _ & _ & _ & H & _).
    apply H. reflexivity.
  - destruct (simple_substitution {[ "X" := "a" ]}) as (_ & _ & _ & _ & _ & H).
    apply H. reflexivity.
Defined.

Lemma truthy_lookup (variables : gmap string string) name v :
  variables !! name = Some v → v ≠ "" → truthy (dict_get variables name "") = true.
Proof. intros H Hv. by rewrite dict_get_lookup, H, truthy_nonempty. Qed.

Lemma process_after_conditional variables s t :
  pass_conditional variables s = t → has_token t = false →
  process_template s variables = t.
Proof.
  intros Hs Ht. unfold process_template. rewrite Hs.
  by rewrite pass_inverted_no_token, pass_default_no_token, pass_simple_no_token.
Qed.

(** C3: three sweeps resolve three levels of nesting and no more, for blocks
    of pairwise distinct names nested around a body without an opening brace,
    in the positive pass and in the inverted pass alike.  With at most three
    levels the template is resolved: positive blocks give the body when every
    name is present and non-empty and nothing otherwise, inverted blocks give
    the body when every name is absent or empty and nothing otherwise.  When
    every level is kept, the pass removes the three outermost levels, so that
    with more levels the fourth is still there after the pass, and in the
    output.  So [{{#A}}{{#B}}inner{{/B}}{{/A}}] gives [inner], and four
    levels around [inner] leave [{{#D}}inner{{/D}}]. *)
Theorem nesting_resolved_to_three_levels (variables : gmap string string) :
  (∀ names body,
     valid_names names → NoDup names →
     all_chars (not_char "{") body = true →
     (length names ≤ 3 →
        process_template (nest names body) variables
        = resolve variables names body)
     ∧ (truthy_names variables names →
          pass_conditional variables (nest names body) = nest (drop 3 names) body
          ∧ ∀ a b c d rest, names = a :: b :: c :: d :: rest →
              pass_conditional variables (nest names body)
              = open_tag "#" d +:+ nest rest body +:+ close_tag d))
  ∧ (∀ names body,
       valid_names names → NoDup names →
       all_chars (not_char "{") body = true →
       (length names ≤ 3 →
          process_template (nest_inverted names body) variables
          = resolve_inverted variables names body)
       ∧ (falsy_names variables names →
            pass_inverted variables (nest_inverted names body)
            = nest_inverted (drop 3 names) body
            ∧ process_template (nest_inverted names body) variables
              = nest_inverted (drop 3 names) body
            ∧ ∀ a b c d rest, names = a :: b :: c :: d :: rest →
                pass_inverted variables (nest_inverted names body)
                = open_tag "^" d +:+ nest_inverted rest body +:+ close_tag d))
  ∧ (∀ a b,
       variables !! "A" = Some a → a ≠ "" →
       variables !! "B" = Some b → b ≠ "" →
       process_template "{{#A}}{{#B}}inner{{/B}}{{/A}}" variables = "inner")
  ∧ (∀ a b c d,
       variables !! "A" = Some a → a ≠ "" →
       variables !! "B" = Some b → b ≠ "" →
       variables !! "C" = Some c → c ≠ "" →
       variables !! "D" = Some d → d ≠ "" →
       pass_conditional variables
         "{{#A}}{{#B}}{{#C}}{{#D}}inner{{/D}}{{/C}}{{/B}}{{/A}}"
       = "{{#D}}inner{{/D}}"
       ∧ process_template
           "{{#A}}{{#B}}{{#C}}{{#D}}inner{{/D}}{{/C}}{{/B}}{{/A}}" variables
         = "{{#D}}inner{{/D}}").
Proof.
  assert (Hgen : ∀ names body,
     valid_names names → NoDup names → truthy_names variables names →
     all_chars (not_char "{") body = true →
     pass_conditional variables (nest names body) = nest (drop 3 names) body).
  { intros. unfold pass_conditional. by apply sweeps_nest. }
  assert (Hinv : ∀ names body,
     valid_names names → NoDup names → falsy_names variables names →
     all_chars (not_char "{") body = true →
     pass_inverted variables (nest_inverted names body)
     = nest_inverted (drop 3 names) body).
  { intros. unfold pass_inverted. by apply sweeps_inverted_nest. }
  split; [|split; [|split]].
  - intros names body Hv Hd Hb. split.
    + intros Hlen. apply process_after_conditional.
      * unfold pass_conditional. by apply sweeps_resolve.
      * clear Hv Hd Hlen. induction names as [|n names IH]; simpl.
        -- by apply no_brace_no_token.
        -- by destruct (truthy _).
    + intros Ht. split; [by apply Hgen|].
      intros a b c d rest ->. by rewrite Hgen.
  - intros names body Hv Hd Hb. split.
    + intros Hlen. rewrite process_nest_inverted by done.
      unfold pass_inverted. rewrite sweeps_inverted_resolve by done.
      by rewrite pass_default_no_token, pass_simple_no_token
        by (by apply resolve_inverted_no_token).
    + intros Ht. split; [by apply Hinv|]. split.
      * rewrite process_nest_inverted, Hinv by done.
        assert (valid_names (drop 3 names)) by (by apply Forall_drop).
        by rewrite pass_default_nest_inverted, pass_simple_nest_inverted.
      * intros a b c d rest ->. by rewrite Hinv.
  - intros a b Ha Ha' Hb Hb'.
    change "{{#A}}{{#B}}inner{{/B}}{{/A}}" with (nest ["A"; "B"] "inner").
    apply process_after_conditional; [|done].
    rewrite Hgen; [done| | |by repeat constructor; eauto using truthy_lookup|done].
    + by repeat constructor.
    + compute_done.
  - intros a b c d Ha Ha' Hb Hb' Hc Hc' Hd Hd'.
    assert (pass_conditional variables
              "{{#A}}{{#B}}{{#C}}{{#D}}inner{{/D}}{{/C}}{{/B}}{{/A}}"
            = "{{#D}}inner{{/D}}") as Hpass.
    { change "{{#A}}{{#B}}{{#C}}{{#D}}inner{{/D}}{{/C}}{{/B}}{{/A}}"
        with (nest ["A"; "B"; "C"; "D"] "inner").
      rewrite Hgen; [done| | |by repeat constructor; eauto using truthy_lookup|done].
      + by repeat constructor.
      + compute_done. }
    split; [done|]. unfold process_template. rewrite Hpass.
    unfold pass_inverted. simpl Nat.iter. by run_passes.
Qed.

Lemma nesting_resolved_to_three_levels_witness :
  process_template (nest ["P"; "Q"; "R"] "x y")
    {[ "P" := "1"; "Q" := "yes"; "R" := "0" ]}
  = resolve {[ "P" := "1"; "Q" := "yes"; "R" := "0" ]} ["P"; "Q"; "R"] "x y"
  ∧ pass_conditional {[ "P" := "1"; "Q" := "yes"; "R" := "0"; "S" := "s" ]}
      (nest ["P"; "Q"; "R"; "S"] "x y")
    = open_tag "#" "S" +:+ nest [] "x y" +:+ close_tag "S"
  ∧ process_template (nest_inverted ["P"; "Q"; "R"] "x y") {[ "Q" := "" ]}
    = resolve_inverted {[ "Q" := "" ]} ["P"; "Q"; "R"] "x y"
  ∧ process_template (nest_inverted ["P"; "Q"; "R"; "S"] "x y") {[ "Q" := "" ]}
    = nest_inverted (drop 3 ["P"; "Q"; "R"; "S"]) "x y"
  ∧ process_template "{{#A}}{{#B}}inner{{/B}}{{/A}}"
      {[ "A" := "1"; "B" := "1" ]} = "inner"
  ∧ process_template
      "{{#A}}{{#B}}{{#C}}{{#D}}inner{{/D}}{{/C}}{{/B}}{{/A}}"
      {[ "A" := "1"; "B" := "1"; "C" := "1"; "D" := "1" ]}
    = "{{#D}}inner{{/D}}".
Proof.
  split; [|split; [|split; [|split; [|split]]]].
  - destruct (nesting_resolved_to_three_levels
                {[ "P" := "1"; "Q" := "yes"; "R" := "0" ]}) as (H & _).
    destruct (H ["P"; "Q"; "R"] "x y") as (H3 & _).
    + repeat constructor.
    + compute_done.
    + reflexivity.
    + apply H3. simpl. lia.
  - destruct (nesting_resolved_to_three_levels
                {[ "P" := "1"; "Q" := "yes"; "R" := "0"; "S" := "s" ]}) as (H & _).
    destruct (H ["P"; "Q"; "R"; "S"] "x y") as (_ & H4).
    + repeat constructor.
    + compute_done.
    + reflexivity.
    + destruct H4 as (_ & H4); [repeat constructor|].
      apply (H4 "P" "Q" "R"). reflexivity.
  - destruct (nesting_resolved_to_three_levels {[ "Q" := "" ]}) as (_ & H & _).
    destruct (H ["P"; "Q"; "R"] "x y") as (H3 & _).
    + repeat constructor.
    + compute_done.
    + reflexivity.
    + apply H3. simpl. lia.
  - destruct (nesting_resolved_to_three_levels {[ "Q" := "" ]}) as (_ & H & _).
    destruct (H ["P"; "Q"; "R"; "S"] "x y") as (_ & H4).
    + repeat constructor.
    + compute_done.
    + reflexivity.
    + destruct H4 as (_ & H4 & _); [repeat constructor|]. exact H4.
  - destruct (nesting_resolved_to_three_levels
                {[ "A" := "1"; "B" := "1" ]}) as (_ & _ & H & _).
    apply (H "1" "1"); (reflexivity || discriminate).
  - destruct (nesting_resolved_to_three_levels
                {[ "A" := "1"; "B" := "1"; "C" := "1"; "D" := "1" ]})
      as (_ & _ & _ & H).
    apply (H "1" "1" "1" "1"); (reflexivity || discriminate).
Defined.

(** C3, counterexample: two levels are not always resolved.  A block nested
    in a block of the same name is closed by the inner closing tag: with [A]
    absent, [{{#A}}{{#A}}x{{/A}}{{/A}}] does not give the empty string that
    two nested blocks of an absent variable are meant to give; the outer
    closing tag is left, in the output of the positive pass and in the
    output of the engine. *)
Lemma nesting_same_name_counterexample :
  nest ["A"; "A"] "x" = "{{#A}}{{#A}}x{{/A}}{{/A}}"
  ∧ resolve ∅ ["A"; "A"] "x" = ""
  ∧ pass_conditional ∅ "{{#A}}{{#A}}x{{/A}}{{/A}}" = "{{/A}}"
  ∧ process_template "{{#A}}{{#A}}x{{/A}}{{/A}}" ∅ = "{{/A}}".
Proof. repeat split; vm_compute; reflexivity. Qed.

(** ** Tags that stay as they are *)

Lemma process_template_fixed variables s :
  sweep_conditional variables s = s → sweep_inverted variables s = s →
  pass_default variables s = s → pass_simple variables s = s →
  process_template s variables = s.
Proof.
  intros H1 H2 H3 H4. unfold process_template, pass_conditional, pass_inverted.
  simpl Nat.iter. by rewrite !H1, !H2, H3, H4.
Qed.

Lemma sub_tag_alone r repl c w :
  matches_tokens r →
  all_chars (not_char "{") (String c w) = true →
  match_at r ("{{" +:+ String c w) false = None →
  sub r repl ("{{" +:+ String c w) = "{{" +:+ String c w.
Proof.
  intros Hr Hw Hno. rewrite <- (append_nil_r (String c w)) in Hno |- *.
  rewrite sub_skip_tag by done. by rewrite (sub_no_token r repl "").
Qed.

Lemma close_tag_unmatched r repl name :
  matches_tokens r → is_name name = true →
  match_at r (close_tag name) false = None →
  sub r repl (close_tag name) = close_tag name.
Proof.
  intros Hr [_ Hn]%is_name_inv Hno.
  change (close_tag name) with ("{{" +:+ String "/" (name +:+ "}}")) in *.
  apply sub_tag_alone; [done| |done].
  simpl. by rewrite all_chars_app, word_no_brace.
Qed.

Lemma process_unmatched variables s :
  unmatched s = true → process_template s variables = s.
Proof.
  unfold unmatched. intros [[[H1 H2]%andb_true_iff H3]%andb_true_iff H4]%andb_true_iff.
  apply process_template_fixed; by apply sub_nowhere.
Qed.

Lemma pattern_groups r s must_advance m rest :
  match_at r s must_advance = Some (m, rest) →
  (r ∈ [conditional_pattern; inverted_pattern; default_pattern; simple_pattern] →
     is_Some (m_groups m !! 1))
  ∧ (r ∈ [conditional_pattern; inverted_pattern; default_pattern] →
     is_Some (m_groups m !! 2)).
Proof.
  intros H. split; intros Hr; repeat apply elem_of_cons in Hr as [-> | Hr];
    try (by apply elem_of_nil in Hr).
  all: unfold conditional_pattern, inverted_pattern in H.
  all: rewrite ?match_at_block, ?match_at_default, ?match_at_simple in H.
  all: repeat case_match; simplify_eq; simpl.
  all: rewrite ?lookup_insert_eq; rewrite ?lookup_insert_ne by done;
    rewrite ?lookup_insert_eq; by eexists.
Qed.

(** ** The engine never fails *)

Lemma search_match r s must_advance pre m rest :
  search r s must_advance = Some (pre, m, rest) →
  ∃ t ma, match_at r t ma = Some (m, rest).
Proof.
  revert must_advance pre. induction s as [|c s IH]; intros ma pre H; simpl in H.
  - destruct (match_at r "" ma) as [[m' rest']|] eqn:E; [|discriminate].
    injection H as <- <- <-. by eauto.
  - destruct (match_at r (String c s) ma) as [[m' rest']|] eqn:E.
    + injection H as <- <- <-. by eauto.
    + destruct (search r s false) as [[[pre' m'] rest']|] eqn:E'; [|discriminate].
      injection H as <- <- <-. by eauto.
Qed.

(** When the callback has a string for every match, the bounded loop ends
    before its rounds are used up, with the result of [re.sub]. *)
Lemma sub_loop_checked_total r repl repl_checked :
  (∀ s ma m rest, match_at r s ma = Some (m, rest) →
     repl_checked m = Some (repl m)) →
  ∀ fuel s must_advance, rounds s must_advance < fuel →
    sub_loop_checked fuel r repl_checked s must_advance
    = Some (sub_from r repl s must_advance).
Proof.
  intros Hrepl. induction fuel as [|fuel IH]; intros s ma Hf; [lia|].
  rewrite sub_from_unfold. cbn [sub_loop_checked].
  destruct (search r s ma) as [[[pre m] rest]|] eqn:E; [|done].
  pose proof (search_rounds _ _ _ _ _ _ E) as Hr.
  destruct (search_match _ _ _ _ _ _ E) as (t & ma' & Hm).
  rewrite (Hrepl _ _ _ _ Hm). cbn [mbind option_bind].
  by rewrite IH by lia.
Qed.

Lemma sub_checked_total r repl repl_checked s :
  (∀ s ma m rest, match_at r s ma = Some (m, rest) →
     repl_checked m = Some (repl m)) →
  sub_checked r repl_checked s = Some (sub r repl s).
Proof.
  intros H. unfold sub_checked, sub.
  apply (sub_loop_checked_total r repl repl_checked H). unfold rounds. lia.
Qed.

Lemma group_checked_defined m n :
  is_Some (m_groups m !! S n) → group_checked m (S n) = Some (group m (S n)).
Proof. intros [v Hv]. unfold group_checked, group. by rewrite Hv. Qed.

Lemma replace_conditional_checked_total variables s ma m rest :
  match_at conditional_pattern s ma = Some (m, rest) →
  replace_conditional_checked variables m = Some (replace_conditional variables m).
Proof.
  intros [H1 H2]%pattern_groups.
  unfold replace_conditional_checked, replace_conditional.
  rewrite !group_checked_defined; [done|..];
    first [apply H1 | apply H2]; repeat constructor.
Qed.

Lemma replace_inverted_checked_total variables s ma m rest :
  match_at inverted_pattern s ma = Some (m, rest) →
  replace_inverted_conditional_checked variables m
  = Some (replace_inverted_conditional variables m).
Proof.
  intros [H1 H2]%pattern_groups.
  unfold replace_inverted_conditional_checked, replace_inverted_conditional.
  rewrite !group_checked_defined; [done|..];
    first [apply H1 | apply H2]; repeat constructor.
Qed.

Lemma replace_with_default_checked_total variables s ma m rest :
  match_at default_pattern s ma = Some (m, rest) →
  replace_with_default_checked variables m
  = Some (replace_with_default variables m).
Proof.
  intros [H1 H2]%pattern_groups.
  unfold replace_with_default_checked, replace_with_default.
  rewrite !group_checked_defined; [done|..];
    first [apply H1 | apply H2]; repeat constructor.
Qed.

Lemma replace_simple_checked_total variables s ma m rest :
  match_at simple_pattern s ma = Some (m, rest) →
  replace_simple_checked variables m = Some (replace_simple variables m).
Proof.
  intros [H1 _]%pattern_groups.
  unfold replace_simple_checked, replace_simple.
  rewrite !group_checked_defined; [done|]. apply H1. repeat constructor.
Qed.

Lemma process_template_checked_total template_content variables :
  process_template_checked template_content variables
  = Some (process_template template_content variables).
Proof.
  unfold process_template_checked. cbn [mbind option_bind].
  repeat (rewrite (sub_checked_total conditional_pattern
                     (replace_conditional variables))
            by apply replace_conditional_checked_total;
          cbn [mbind option_bind]).
  repeat (rewrite (sub_checked_total inverted_pattern
                     (replace_inverted_conditional variables))
            by apply replace_inverted_checked_total;
          cbn [mbind option_bind]).
  rewrite (sub_checked_total default_pattern (replace_with_default variables))
    by apply replace_with_default_checked_total.
  cbn [mbind option_bind].
  rewrite (sub_checked_total simple_pattern (replace_simple variables))
    by apply replace_simple_checked_total.
  reflexivity.
Qed.




Lemma process_single_reference variables v :
  variables !! "X" = Some v → process_template "{{X}}" variables = v.
Proof.
  intros H. unfold_process. run_passes. by rewrite dict_get_lookup, H.
Qed.

(** C7: the passes run in one direction.  The template is handed from the
    positive blocks to the inverted blocks, to the defaulted variables, to
    the plain variables, once.  What a block reveals is still substituted:
    [{{#A}}{{B}}{{/A}}] with [A] non-empty and [B] set to [b] gives [b].
    What a variable brings in is not looked at again by the block passes:
    with [X] set to [{{#A}}hi{{/A}}], the template [{{X}}] gives that text
    as it is; indeed [{{X}}] gives the value of [X] whatever it is. *)
Theorem passes_one_directional (variables : gmap string string) :
  (∀ t, process_template t variables
        = pass_simple variables
            (pass_default variables
               (pass_inverted variables (pass_conditional variables t))))
  ∧ (∀ a, variables !! "A" = Some a → a ≠ "" →
          variables !! "B" = Some "b" →
          process_template "{{#A}}{{B}}{{/A}}" variables = "b")
  ∧ (∀ a, variables !! "A" = Some a → a ≠ "" →
          variables !! "X" = Some "{{#A}}hi{{/A}}" →
          process_template "{{X}}" variables = "{{#A}}hi{{/A}}")
  ∧ (∀ v, variables !! "X" = Some v →
          process_template "{{X}}" variables = v).
Proof.
  split; [done|]. split; [|split].
  - intros a Ha Ha' Hb. unfold_process. pass_step.
    rewrite (truthy_lookup _ _ _ Ha Ha'). run_passes.
    by rewrite dict_get_lookup, Hb.
  - intros a _ _ Hx. by apply process_single_reference.
  - intros v. apply process_single_reference.
Qed.

Lemma passes_one_directional_witness :
  process_template "{{#A}}{{B}}{{/A}}" {[ "A" := "1"; "B" := "b" ]} = "b"
  ∧ process_template "{{X}}" {[ "A" := "1"; "X" := "{{#A}}hi{{/A}}" ]}
    = "{{#A}}hi{{/A}}"
  ∧ process_template "{{X}}" {[ "X" := "{{^A}}{{X}}{{/A}}" ]}
    = "{{^A}}{{X}}{{/A}}".
Proof.
  split; [|split].
  - destruct (passes_one_directional {[ "A" := "1"; "B" := "b" ]}) as (_ & H & _).
    apply (H "1"); [reflexivity | discriminate | reflexivity].
  - destruct (passes_one_directional {[ "A" := "1"; "X" := "{{#A}}hi{{/A}}" ]})
      as (_ & _ & H & _).
    apply (H "1"); [reflexivity | discriminate | reflexivity].
  - destruct (passes_one_directional {[ "X" := "{{^A}}{{X}}{{/A}}" ]})
      as (_ & _ & _ & H).
    apply H. reflexivity.
Defined.

(** C8: a template without a markup token is a fixed point.  When the
    template contains no [{{] followed by a [}}], the output is the template;
    and when the output of the engine contains none, running the engine on it
    again changes nothing. *)
Theorem token_free_fixed_point
    (template_content : string) (variables : gmap string string) :
  (has_token template_content = false →
   process_template template_content variables = template_content)
  ∧ (has_token (process_template template_content variables) = false →
     process_template (process_template template_content variables) variables
     = process_template template_content variables).
Proof. split; intros H; by apply process_template_no_token. Qed.

Lemma token_free_fixed_point_witness :
  process_template "a: {b} }}c{{ d" {[ "b" := "1" ]} = "a: {b} }}c{{ d"
  ∧ process_template
      (process_template "Hello {{NAME}}!" {[ "NAME" := "world" ]})
      {[ "NAME" := "world" ]}
    = process_template "Hello {{NAME}}!" {[ "NAME" := "world" ]}.
Proof.
  split.
  - destruct (token_free_fixed_point "a: {b} }}c{{ d" {[ "b" := "1" ]}) as (H & _).
    apply H. vm_compute. reflexivity.
  - destruct (token_free_fixed_point "Hello {{NAME}}!" {[ "NAME" := "world" ]})
      as (_ & H).
    apply H. vm_compute. reflexivity.
Defined.

(** C9: the mapping handed to the engine holds exactly the environment
    variables whose name passes [str.isupper], under the same name and with
    the same value; [path] is left out and [PATH] is kept. *)
Theorem environment_filter (environ : gmap string string) :
  (∀ k v, load_variables_from_env environ !! k = Some v
          ↔ environ !! k = Some v ∧ isupper k = true)
  ∧ isupper "path" = false ∧ isupper "PATH" = true
  ∧ load_variables_from_env environ !! "path" = None
  ∧ load_variables_from_env environ !! "PATH" = environ !! "PATH".
Proof.
  assert (H : ∀ k v, load_variables_from_env environ !! k = Some v
                     ↔ environ !! k = Some v ∧ isupper k = true).
  { intros k v. unfold load_variables_from_env.
    by rewrite map_lookup_filter_Some. }
  split; [done|]. split; [done|]. split; [done|]. split.
  - apply eq_None_not_Some. intros [v [_ Hv]%H]. discriminate.
  - apply option_eq. intros v. rewrite H. by intuition.
Qed.

(** C10: the value substituted for a variable is not expanded in turn.  With
    [X] set to [{{Y}}] and [Y] a key of the mapping, [{{X}}] gives the text
    [{{Y}}]; in the pass, a reference after text without an opening brace is
    replaced by the value as it is and the scan goes on after the
    reference. *)
Theorem values_not_expanded (variables : gmap string string) :
  (∀ y, variables !! "X" = Some "{{Y}}" → variables !! "Y" = Some y →
        process_template "{{X}}" variables = "{{Y}}")
  ∧ (∀ pre name v post,
       all_chars (not_char "{") pre = true →
       is_name name = true → variables !! name = Some v →
       pass_simple variables (pre +:+ "{{" +:+ name +:+ "}}" +:+ post)
       = pre +:+ v +:+ pass_simple variables post).
Proof.
  split.
  - intros y Hx _. by apply process_single_reference.
  - intros pre name v post Hpre Hn Hv. rewrite pass_simple_run by done.
    rewrite (pass_simple_head _ _ name post) by (by apply parse_simple_tag).
    by rewrite dict_get_lookup, Hv.
Qed.

Lemma values_not_expanded_witness :
  process_template "{{X}}" {[ "X" := "{{Y}}"; "Y" := "z" ]} = "{{Y}}"
  ∧ pass_simple {[ "X" := "{{Y}}"; "Y" := "z" ]}
      ("x: " +:+ "{{" +:+ "X" +:+ "}}" +:+ "{{Y}}")
    = "x: " +:+ "{{Y}}" +:+ pass_simple {[ "X" := "{{Y}}"; "Y" := "z" ]} "{{Y}}".
Proof.
  split.
  - destruct (values_not_expanded {[ "X" := "{{Y}}"; "Y" := "z" ]}) as (H & _).
    apply (H "z"); reflexivity.
  - destruct (values_not_expanded {[ "X" := "{{Y}}"; "Y" := "z" ]}) as (_ & H).
    apply (H "x: " "X" "{{Y}}" "{{Y}}"); reflexivity.
Defined.

(** ** The command line: failures, output, environment *)

Lemma load_variables_agree (env1 env2 : gmap string string) :
  (∀ k, isupper k = true → env1 !! k = env2 !! k) →
  load_variables_from_env env1 = load_variables_from_env env2.
Proof.
  intros H. apply map_eq. intros k. apply option_eq. intros v.
  unfold load_variables_from_env. rewrite !map_lookup_filter_Some. simpl.
  split; intros [Hk Hu]; (split; [|done]); [rewrite <- H | rewrite H]; done.
Qed.

Lemma main_second_argument argv (f : string) :
  argv !! 1 = Some f → (length argv <? 2)%nat = false.
Proof.
  intros H. apply lookup_lt_Some in H. apply Nat.ltb_ge. lia.
Qed.

Lemma print_then_calls print file text end_ next calls e :
  print_then print file text end_ next = (calls, e) →
  (print file (text +:+ end_) = Returns () ∧ calls = (file, text +:+ end_) :: next.1
   ∧ e = next.2)
  ∨ (∃ x, print file (text +:+ end_) = Raises x
          ∧ calls = [(file, text +:+ end_)] ∧ e = Raised x).
Proof.
  unfold print_then. destruct (print file (text +:+ end_)) as [[]|x].
  - intros [= <- <-]. by left.
  - intros [= <- <-]. right. by exists x.
Qed.

(** X1: [main] ends with [sys.exit(1)], after one call of [print] for the
    standard error and none for the standard output, when the template
    argument is missing (usage line) and when opening the file raises
    [FileNotFoundError] (error line naming the file), provided that call of
    [print] returns; and it ends with [sys.exit] in no other case and with
    no other status. *)
Theorem main_error_behaviour
    (argv : list string) (open_read : string → answer string)
    (environ : gmap string string) (print : stream → string → answer unit) :
  (length argv < 2 →
     print Stderr ("Usage: template-processor.py <template-file>" +:+ newline)
       = Returns () →
     main argv open_read environ print
     = ([(Stderr, "Usage: template-processor.py <template-file>" +:+ newline)],
        SystemExit 1))
  ∧ (∀ f, argv !! 1 = Some f → open_read f = Raises FileNotFoundError →
       print Stderr (("Error: Template file not found: " +:+ f) +:+ newline)
         = Returns () →
       main argv open_read environ print
       = ([(Stderr, ("Error: Template file not found: " +:+ f) +:+ newline)],
          SystemExit 1))
  ∧ (∀ calls status,
       main argv open_read environ print = (calls, SystemExit status) →
       status = 1
       ∧ (∃ text, calls = [(Stderr, text)])
       ∧ (length argv < 2
          ∨ ∃ f, argv !! 1 = Some f ∧ open_read f = Raises FileNotFoundError)).
Proof.
  split; [|split].
  - intros H Hp. unfold main, print_then. apply Nat.ltb_lt in H.
    by rewrite H, Hp.
  - intros f Hf Hnf Hp. unfold main, print_then.
    by rewrite (main_second_argument _ _ Hf), Hf, Hnf, Hp.
  - intros calls status H. unfold main in H.
    destruct (length argv <? 2)%nat eqn:E.
    + apply print_then_calls in H as [(_ & -> & H) | (x & _ & _ & H)];
        [|discriminate].
      injection H as ->. split; [done|]. split; [by eexists|].
      left. by apply Nat.ltb_lt.
    + destruct (argv !! 1) as [f|]; [|discriminate].
      destruct (open_read f) as [decoded|[|name]] eqn:Ef.
      * apply print_then_calls in H as [(_ & _ & H) | (x & _ & _ & H)];
          discriminate.
      * apply print_then_calls in H as [(_ & -> & H) | (x & _ & _ & H)];
          [|discriminate].
        injection H as ->. split; [done|]. split; [by eexists|].
        right. by exists f.
      * discriminate.
Qed.

Lemma main_error_behaviour_witness :
  main ["template-processor.py"] (λ _, Raises (OtherException "OSError")) ∅
    (λ _ _, Returns ())
  = ([(Stderr, "Usage: template-processor.py <template-file>" +:+ newline)],
     SystemExit 1)
  ∧ main ["template-processor.py"; "a.tpl"] (λ _, Raises FileNotFoundError) ∅
      (λ _ _, Returns ())
    = ([(Stderr, ("Error: Template file not found: " +:+ "a.tpl") +:+ newline)],
       SystemExit 1)
  ∧ (1 = 1
     ∧ (∃ text, [(Stderr, "Usage: template-processor.py <template-file>" +:+ newline)]
                = [(Stderr, text)])
     ∧ (0 < 2
        ∨ ∃ f, ([] : list string) !! 1 = Some f
               ∧ (λ _, Returns "") f = Raises FileNotFoundError)).
Proof.
  split; [|split].
  - destruct (main_error_behaviour ["template-processor.py"]
                (λ _, Raises (OtherException "OSError")) ∅ (λ _ _, Returns ()))
      as (H & _).
    apply H; [simpl; lia | reflexivity].
  - destruct (main_error_behaviour ["template-processor.py"; "a.tpl"]
                (λ _, Raises FileNotFoundError) ∅ (λ _ _, Returns ()))
      as (_ & H & _).
    apply (H "a.tpl"); reflexivity.
  - destruct (main_error_behaviour [] (λ _, Returns "") ∅ (λ _ _, Returns ()))
      as (_ & _ & H).
    apply (H [(Stderr, "Usage: template-processor.py <template-file>" +:+ newline)] 1).
    reflexivity.
Defined.

(** X2: [main] calls [print] at most once, so never for both streams: when
    it returns, its one call was for the standard output, and when it ends
    with [sys.exit], its one call was for the standard error. *)
Theorem main_output_discipline
    (argv : list string) (open_read : string → answer string)
    (environ : gmap string string) (print : stream → string → answer unit)
    calls e :
  main argv open_read environ print = (calls, e) →
  length calls ≤ 1
  ∧ (e = Returned → ∃ text, calls = [(Stdout, text)])
  ∧ (∀ status, e = SystemExit status → ∃ text, calls = [(Stderr, text)]).
Proof.
  unfold main. intros H.
  assert (∀ file text end_ next,
    length next.1 = 0 →
    (next.2 = Returned → file = Stdout) →
    (∀ status, next.2 = SystemExit status → file = Stderr) →
    print_then print file text end_ next = (calls, e) →
    length calls ≤ 1
    ∧ (e = Returned → ∃ text, calls = [(Stdout, text)])
    ∧ (∀ status, e = SystemExit status → ∃ text, calls = [(Stderr, text)]))
    as Hprint.
  { intros file text end_ [calls' e'] Hlen Hout Herr Hp. simpl in *.
    destruct calls'; [|done].
    apply print_then_calls in Hp as [(_ & -> & ->) | (x & _ & -> & ->)]; simpl.
    - split; [lia|]. split.
      + intros He. rewrite <- (Hout He). by eexists.
      + intros status He. rewrite <- (Herr status He). by eexists.
    - split; [lia|]. by split. }
  destruct (length argv <? 2)%nat.
  - by apply Hprint in H.
  - destruct (argv !! 1) as [f|].
    + destruct (open_read f) as [decoded|[|name]].
      * by apply Hprint in H.
      * by apply Hprint in H.
      * injection H as <- <-. split; [simpl; lia|]. by split.
    + injection H as <- <-. split; [simpl; lia|]. by split.
Qed.

Lemma main_output_discipline_witness :
  length [(Stdout, "Hello !")] ≤ 1
  ∧ (Returned = Returned → ∃ text, [(Stdout, "Hello !")] = [(Stdout, text)])
  ∧ (∀ status, Returned = SystemExit status →
       ∃ text, [(Stdout, "Hello !")] = [(Stderr, text)]).
Proof.
  apply (main_output_discipline ["t"; "a.tpl"]
           (λ _, Returns "Hello {{name}}!") {[ "name" := "x" ]}
           (λ _ _, Returns ())).
  vm_compute. reflexivity.
Defined.

(** X3: only the environment variables whose name passes [str.isupper]
    matter: two environments that agree on them give the same run. *)
Theorem main_ignores_other_variables
    (argv : list string) (open_read : string → answer string)
    (env1 env2 : gmap string string) (print : stream → string → answer unit) :
  (∀ k, isupper k = true → env1 !! k = env2 !! k) →
  main argv open_read env1 print = main argv open_read env2 print.
Proof.
  intros H. unfold main. by rewrite (load_variables_agree env1 env2).
Qed.

Lemma main_ignores_other_variables_witness :
  main ["t"; "a.tpl"] (λ _, Returns "{{NAME}} {{name}}")
    (<["name" := "y"]> {[ "NAME" := "x" ]}) (λ _ _, Returns ())
  = main ["t"; "a.tpl"] (λ _, Returns "{{NAME}} {{name}}") {[ "NAME" := "x" ]}
      (λ _ _, Returns ()).
Proof.
  apply main_ignores_other_variables. intros k Hk.
  destruct (decide (k = "name")) as [-> | Hne]; [discriminate|].
  apply lookup_insert_ne. congruence.
Defined.

Lemma translate_newlines_plain s :
  all_chars (not_char carriage_return) s = true →
  translate_newlines s false = s.
Proof.
  induction s as [|c s IH]; [done|]. cbn [all_chars translate_newlines].
  intros [Hc Hs]%andb_true_iff. unfold not_char in Hc.
  destruct (Ascii.eqb c carriage_return); [done|].
  rewrite andb_false_r. by rewrite IH.
Qed.

(** X4: a template file without a markup token is handed to [print] for the
    standard output as it was read, that is with its line ends [\r\n] and
    [\r] read as [\n], and [main] returns, whatever the environment,
    provided [print] returns; a text without a carriage return is read as it
    is. *)
Theorem main_copies_plain_file
    (argv : list string) (open_read : string → answer string)
    (environ : gmap string string) (print : stream → string → answer unit)
    f decoded :
  argv !! 1 = Some f → open_read f = Returns decoded →
  has_token (universal_newlines decoded) = false →
  print Stdout (universal_newlines decoded) = Returns () →
  main argv open_read environ print
    = ([(Stdout, universal_newlines decoded)], Returned)
  ∧ (all_chars (not_char carriage_return) decoded = true →
     universal_newlines decoded = decoded).
Proof.
  intros Hf Hc Ht Hp. split; [|apply translate_newlines_plain].
  unfold main, print_then.
  rewrite (main_second_argument _ _ Hf), Hf, Hc.
  by rewrite process_template_no_token, append_nil_r, Hp.
Qed.

Lemma main_copies_plain_file_witness :
  main ["t"; "a.yaml"]
    (λ _, Returns (String "k" (String carriage_return (String "010" "{v}"))))
    {[ "KEY" := "1" ]} (λ _ _, Returns ())
  = ([(Stdout, String "k" (String "010" "{v}"))], Returned).
Proof.
  destruct (main_copies_plain_file ["t"; "a.yaml"]
              (λ _, Returns (String "k" (String carriage_return (String "010" "{v}"))))
              {[ "KEY" := "1" ]} (λ _ _, Returns ()) "a.yaml"
              (String "k" (String carriage_return (String "010" "{v}")))
              eq_refl eq_refl eq_refl eq_refl) as (H & _).
  exact H.
Defined.

(** ** The environment: what is kept *)

Lemma isupper_loop_chars s cased :
  isupper_loop s cased
  = all_chars (λ c, negb (is_lower_char c || is_title_char c)) s
    && (cased || any_char is_upper_char s).
Proof.
  revert cased. induction s as [|c s IH]; intros cased; cbn [isupper_loop all_chars any_char].
  - by rewrite orb_false_r.
  - destruct (is_lower_char c || is_title_char c); [done|].
    by rewrite IH, orb_assoc.
Qed.

Lemma load_variables_lookup (environ : gmap string string) k v :
  load_variables_from_env environ !! k = Some v
  ↔ environ !! k = Some v ∧ isupper k = true.
Proof. unfold load_variables_from_env. by rewrite map_lookup_filter_Some. Qed.



(** X6: filtering is idempotent and only removes: the mapping loaded from a
    loaded mapping is that mapping, and every binding loaded is a binding of
    the environment. *)
Theorem environment_filter_idempotent (environ : gmap string string) :
  load_variables_from_env (load_variables_from_env environ)
    = load_variables_from_env environ
  ∧ load_variables_from_env environ ⊆ environ.
Proof.
  split.
  - apply map_eq. intros k. apply option_eq. intros v.
    rewrite !load_variables_lookup. tauto.
  - apply map_filter_subseteq.
Qed.

(** X7: setting a variable in the environment sets it in the mapping when
    its name passes [str.isupper] and changes nothing otherwise. *)
Theorem environment_filter_insert (environ : gmap string string) k v :
  load_variables_from_env (<[k:=v]> environ)
  = if isupper k then <[k:=v]> (load_variables_from_env environ)
    else load_variables_from_env environ.
Proof.
  apply map_eq. intros j. apply option_eq. intros w.
  destruct (isupper k) eqn:Hk.
  - rewrite load_variables_lookup. destruct (decide (k = j)) as [<- | Hne].
    + rewrite !lookup_insert_eq. tauto.
    + rewrite !lookup_insert_ne by done. by rewrite load_variables_lookup.
  - rewrite !load_variables_lookup. destruct (decide (k = j)) as [<- | Hne].
    + split; intros [_ ?]; congruence.
    + by rewrite lookup_insert_ne.
Qed.

(** ** The conditional passes only remove text *)

(** When no replacement is longer than the match it replaces, [re.sub] does
    not lengthen the text. *)
Lemma sub_from_length r repl :
  (∀ s ma m rest, match_at r s ma = Some (m, rest) →
     String.length (repl m) ≤ String.length (m_whole m)) →
  ∀ n s must_advance, rounds s must_advance < n →
    String.length (sub_from r repl s must_advance) ≤ String.length s.
Proof.
  intros Hrepl. induction n as [|n IH]; intros s ma Hn; [lia|].
  rewrite sub_from_unfold.
  destruct (search r s ma) as [[[pre m] rest]|] eqn:E; [|done].
  pose proof (search_rounds _ _ _ _ _ _ E) as Hr.
  pose proof (search_match _ _ _ _ _ _ E) as (t & ma' & Hm).
  apply Hrepl in Hm. apply search_sound in E as [-> _].
  specialize (IH rest (is_empty (m_whole m))). rewrite !append_length.
  lia.
Qed.

Lemma sub_length r repl s :
  (∀ s ma m rest, match_at r s ma = Some (m, rest) →
     String.length (repl m) ≤ String.length (m_whole m)) →
  String.length (sub r repl s) ≤ String.length s.
Proof.
  intros H. unfold sub.
  apply (sub_from_length r repl H (S (rounds s false))). lia.
Qed.

Lemma block_match_length sigil name content :
  String.length content ≤ String.length (m_whole (block_match sigil name content)).
Proof. simpl. rewrite !append_length. lia. Qed.

Lemma sweep_conditional_length variables s :
  String.length (sweep_conditional variables s) ≤ String.length s.
Proof.
  apply sub_length. intros t ma m rest H. unfold conditional_pattern in H.
  rewrite match_at_block in H.
  destruct (parse_block "#" t) as [[[name content] post]|]; [|discriminate].
  injection H as <- <-. rewrite replace_conditional_block.
  destruct (truthy _); [apply block_match_length | simpl; lia].
Qed.

Lemma sweep_inverted_length variables s :
  String.length (sweep_inverted variables s) ≤ String.length s.
Proof.
  apply sub_length. intros t ma m rest H. unfold inverted_pattern in H.
  rewrite match_at_block in H.
  destruct (parse_block "^" t) as [[[name content] post]|]; [|discriminate].
  injection H as <- <-. rewrite replace_inverted_block.
  destruct (truthy _); [simpl; lia | apply block_match_length].
Qed.

Lemma pass_conditional_length variables s :
  String.length (pass_conditional variables s) ≤ String.length s.
Proof.
  unfold pass_conditional. simpl Nat.iter.
  pose proof (sweep_conditional_length variables s).
  pose proof (sweep_conditional_length variables (sweep_conditional variables s)).
  pose proof (sweep_conditional_length variables
                (sweep_conditional variables (sweep_conditional variables s))).
  lia.
Qed.

Lemma pass_inverted_length variables s :
  String.length (pass_inverted variables s) ≤ String.length s.
Proof.
  unfold pass_inverted. simpl Nat.iter.
  pose proof (sweep_inverted_length variables s).
  pose proof (sweep_inverted_length variables (sweep_inverted variables s)).
  pose proof (sweep_inverted_length variables
                (sweep_inverted variables (sweep_inverted variables s))).
  lia.
Qed.

(** X8: the two conditional passes never lengthen the text, whatever the
    mapping: a block is replaced by its own content or by nothing. *)
Theorem conditional_passes_never_lengthen
    (variables : gmap string string) (s : string) :
  String.length (pass_conditional variables s) ≤ String.length s
  ∧ String.length (pass_inverted variables s) ≤ String.length s
  ∧ String.length (pass_inverted variables (pass_conditional variables s))
    ≤ String.length s.
Proof.
  pose proof (pass_conditional_length variables s).
  pose proof (pass_inverted_length variables s).
  pose proof (pass_inverted_length variables (pass_conditional variables s)).
  repeat split; lia.
Qed.

(** X9: when every variable that is set is empty, and so when none is set,
    the output is never longer than the template. *)
Theorem output_no_longer_without_values
    (variables : gmap string string) (template_content : string) :
  (∀ k v, variables !! k = Some v → v = "") →
  String.length (process_template template_content variables)
  ≤ String.length template_content.
Proof.
  intros Hv. unfold process_template.
  pose proof (pass_conditional_length variables template_content) as H1.
  pose proof (pass_inverted_length variables
                (pass_conditional variables template_content)) as H2.
  set (t := pass_inverted variables (pass_conditional variables template_content)) in *.
  assert (String.length (pass_default variables t) ≤ String.length t) as H3.
  { apply sub_length. intros u ma m rest H. rewrite match_at_default in H.
    destruct (parse_default u) as [[[name dflt] post]|]; [|discriminate].
    injection H as <- <-. rewrite replace_with_default_match, dict_get_lookup.
    destruct (variables !! name) as [v|] eqn:E.
    - rewrite (Hv _ _ E). simpl. lia.
    - simpl. rewrite !append_length. lia. }
  assert (String.length (pass_simple variables (pass_default variables t))
          ≤ String.length (pass_default variables t)) as H4.
  { apply sub_length. intros u ma m rest H. rewrite match_at_simple in H.
    destruct (parse_simple u) as [[name post]|]; [|discriminate].
    injection H as <- <-. rewrite replace_simple_match, dict_get_lookup.
    destruct (variables !! name) as [v|] eqn:E; [rewrite (Hv _ _ E)|]; simpl; lia. }
  lia.
Qed.

Lemma output_no_longer_without_values_witness :
  String.length
    (process_template "a {{X|default:bc}} {{^Y}}d{{/Y}} {{Z}}" {[ "Z" := "" ]})
  ≤ String.length "a {{X|default:bc}} {{^Y}}d{{/Y}} {{Z}}".
Proof.
  apply output_no_longer_without_values. intros k v H.
  destruct (decide (k = "Z")) as [-> | Hne].
  - rewrite lookup_singleton_eq in H. congruence.
  - rewrite lookup_singleton_ne in H by congruence. discriminate.
Defined.

(** ** What the patterns match, without the readers *)

Lemma span_spec p s w rest :
  span p s = (w, rest) → s = w +:+ rest ∧ all_chars p w = true.
Proof.
  revert w. induction s as [|c s IH]; intros w H; simpl in H.
  - by injection H as <- <-.
  - destruct (p c) eqn:Hc; [|by injection H as <- <-].
    destruct (span p s) as [w' rest'] eqn:E. injection H as <- <-.
    destruct (IH w' eq_refl) as [-> Hw]. split; [done|]. simpl. by rewrite Hc.
Qed.

Lemma strip_prefix_nil needle s b :
  s = needle +:+ b → strip_prefix needle s = Some b.
Proof. intros ->. apply strip_prefix_app_same. Qed.

(** [find_first] finds an occurrence, and no occurrence starts before it. *)
Lemma find_first_spec needle s a b :
  find_first needle s = Some (a, b)
  ↔ s = a +:+ needle +:+ b
    ∧ ∀ a' b', s = a' +:+ needle +:+ b' → String.length a ≤ String.length a'.
Proof.
  split.
  - revert a. induction s as [|c s IH]; intros a H; rewrite find_first_unfold in H.
    + destruct (strip_prefix needle "") as [post|] eqn:E; [|discriminate].
      injection H as <- <-. apply strip_prefix_Some in E.
      split; [done|]. intros; simpl; lia.
    + destruct (strip_prefix needle (String c s)) as [post|] eqn:E.
      * injection H as <- <-. apply strip_prefix_Some in E.
        split; [done|]. intros; simpl; lia.
      * destruct (find_first needle s) as [[a0 b0]|] eqn:E'; [|discriminate].
        injection H as <- <-. destruct (IH a0 eq_refl) as [-> Hmin].
        split; [done|]. intros [|c' a'] b' Hs.
        -- rewrite append_nil_l in Hs. by rewrite (strip_prefix_nil _ _ _ Hs) in E.
        -- rewrite append_cons in Hs. injection Hs as -> Hs.
           apply Hmin in Hs. simpl. lia.
  - revert a. induction s as [|c s IH]; intros a [Hs Hmin];
      rewrite find_first_unfold.
    + destruct a as [|c' a]; [|by rewrite append_cons in Hs].
      rewrite append_nil_l in Hs. by rewrite (strip_prefix_nil _ _ _ Hs).
    + destruct (strip_prefix needle (String c s)) as [post|] eqn:E.
      * apply strip_prefix_Some in E.
        specialize (Hmin "" post E). destruct a; [|simpl in Hmin; lia].
        rewrite append_nil_l in Hs. rewrite Hs in E.
        apply strip_prefix_nil in E. rewrite strip_prefix_app_same in E.
        by injection E as ->.
      * destruct a as [|c' a].
        { rewrite append_nil_l in Hs. by rewrite (strip_prefix_nil _ _ _ Hs) in E. }
        rewrite append_cons in Hs. injection Hs as -> ->.
        rewrite (IH a); [done|]. split; [done|].
        intros a' b' Hs. specialize (Hmin (String c' a') b').
        rewrite append_cons, Hs in Hmin. specialize (Hmin eq_refl).
        simpl in Hmin. lia.
Qed.

Lemma span_is_name s name rest :
  span is_word s = (name, rest) → is_empty name = false →
  is_name name = true ∧ s = name +:+ rest.
Proof.
  intros [-> Hw]%span_spec Hne. unfold is_name. by rewrite Hne, Hw.
Qed.

(** X10: the pattern of plain variables matches at the head of a text
    exactly when the text starts with [{{], a name and [}}]; group 1 is the
    name and the match ends after the closing braces. *)
Theorem simple_pattern_exact (s : string) (must_advance : bool)
    (m : Match) (rest : string) :
  match_at simple_pattern s must_advance = Some (m, rest)
  ↔ ∃ name, is_name name = true
            ∧ s = "{{" +:+ name +:+ "}}" +:+ rest
            ∧ m = simple_match name.
Proof.
  rewrite match_at_simple. split.
  - unfold parse_simple. intros H.
    destruct (strip_prefix "{{" s) as [s1|] eqn:E1; [|discriminate].
    destruct (span is_word s1) as [name s2] eqn:E2.
    destruct (is_empty name) eqn:Hne; [discriminate|].
    destruct (strip_prefix "}}" s2) as [post|] eqn:E3; [|discriminate].
    injection H as <- <-. exists name.
    apply strip_prefix_Some in E1 as ->. apply strip_prefix_Some in E3 as ->.
    by destruct (span_is_name _ _ _ E2 Hne) as [? ->].
  - intros (name & Hn & -> & ->). by rewrite parse_simple_tag.
Qed.

(** X11: the pattern of defaulted variables matches at the head of a text
    exactly when the text starts with [{{], a name, [|default:], a non-empty
    run of characters other than the closing brace, and [}}]; groups 1 and 2
    are the name and that run. *)
Theorem default_pattern_exact (s : string) (must_advance : bool)
    (m : Match) (rest : string) :
  match_at default_pattern s must_advance = Some (m, rest)
  ↔ ∃ name dflt,
      is_name name = true
      ∧ is_empty dflt = false ∧ all_chars (not_char "}") dflt = true
      ∧ s = "{{" +:+ name +:+ "|default:" +:+ dflt +:+ "}}" +:+ rest
      ∧ m = default_match name dflt.
Proof.
  rewrite match_at_default. split.
  - unfold parse_default. intros H.
    destruct (strip_prefix "{{" s) as [s1|] eqn:E1; [|discriminate].
    destruct (span is_word s1) as [name s2] eqn:E2.
    destruct (is_empty name) eqn:Hne; [discriminate|].
    destruct (strip_prefix "|default:" s2) as [s3|] eqn:E3; [|discriminate].
    destruct (span (not_char "}") s3) as [dflt s4] eqn:E4.
    destruct (is_empty dflt) eqn:Hd; [discriminate|].
    destruct (strip_prefix "}}" s4) as [post|] eqn:E5; [|discriminate].
    injection H as <- <-. exists name, dflt.
    apply strip_prefix_Some in E1 as ->. apply strip_prefix_Some in E3 as ->.
    apply strip_prefix_Some in E5 as ->.
    destruct (span_is_name _ _ _ E2 Hne) as [? ->].
    by destruct (span_spec _ _ _ _ E4) as [-> ?].
  - intros (name & dflt & Hn & Hd1 & Hd2 & -> & ->).
    by rewrite parse_default_tag.
Qed.

(** X12: a block pattern matches at the head of a text exactly when the text
    starts with an opening tag, and a closing tag of the same name follows;
    the content, group 2, is the shortest possible: it runs up to the first
    closing tag of that name. *)
Theorem block_pattern_exact (sigil : ascii) (s : string)
    (must_advance : bool) (m : Match) (rest : string) :
  match_at (block_pattern sigil) s must_advance = Some (m, rest)
  ↔ ∃ name content,
      is_name name = true
      ∧ s = open_tag sigil name +:+ content +:+ close_tag name +:+ rest
      ∧ (∀ content' rest',
           content +:+ close_tag name +:+ rest
           = content' +:+ close_tag name +:+ rest' →
           String.length content ≤ String.length content')
      ∧ m = block_match sigil name content.
Proof.
  rewrite match_at_block. split.
  - unfold parse_block. intros H.
    destruct (strip_prefix _ s) as [s1|] eqn:E1; [|discriminate].
    destruct (span is_word s1) as [name s2] eqn:E2.
    destruct (is_empty name) eqn:Hne; [discriminate|].
    destruct (strip_prefix "}}" s2) as [s3|] eqn:E3; [|discriminate].
    destruct (find_first (close_tag name) s3) as [[content post]|] eqn:E4;
      [|discriminate].
    injection H as <- <-. exists name, content.
    apply strip_prefix_Some in E1 as ->. apply strip_prefix_Some in E3 as ->.
    destruct (span_is_name _ _ _ E2 Hne) as [? ->].
    apply find_first_spec in E4 as [-> Hmin].
    split; [done|]. split; [|done]. unfold open_tag. by rewrite !append_assoc.
  - intros (name & content & Hn & -> & Hmin & ->).
    rewrite parse_block_tag; [done..|]. by apply find_first_spec.
Qed.

(** ** Tags that begin with a name *)

Lemma block_needs_sigil sigil c t :
  is_word sigil = false → is_word c = true →
  parse_block sigil ("{{" +:+ String c t) = None.
Proof.
  intros Hs Hc. unfold parse_block.
  change (strip_prefix (String "{" (String "{" (String sigil "")))
            ("{{" +:+ String c t))
    with (if Ascii.eqb sigil c then Some t else None).
  by rewrite (class_excludes is_word).
Qed.

(** A tag that begins with a name is left alone by the two block passes. *)
Lemma word_tag_not_a_block variables c w :
  is_word c = true → all_chars (not_char "{") w = true →
  pass_conditional variables ("{{" +:+ String c w) = "{{" +:+ String c w
  ∧ pass_inverted variables ("{{" +:+ String c w) = "{{" +:+ String c w.
Proof.
  intros Hc Hw.
  assert (all_chars (not_char "{") (String c w) = true) as Hcw.
  { simpl. rewrite Hw, andb_true_r. unfold not_char.
    by rewrite Ascii.eqb_sym, (class_excludes is_word). }
  assert (∀ sigil repl, is_word sigil = false →
    sub (block_pattern sigil) repl ("{{" +:+ String c w) = "{{" +:+ String c w)
    as H.
  { intros sigil repl Hs. apply sub_tag_alone; [apply block_pattern_tokens|done|].
    by rewrite match_at_block, block_needs_sigil. }
  unfold pass_conditional, pass_inverted, sweep_conditional, sweep_inverted,
    conditional_pattern, inverted_pattern. simpl Nat.iter.
  by rewrite !H.
Qed.

Lemma name_cons name :
  is_name name = true →
  ∃ c n, name = String c n ∧ is_word c = true ∧ all_chars is_word n = true.
Proof.
  intros [Hne Hw]%is_name_inv. destruct name as [|c n]; [done|].
  simpl in Hw. apply andb_true_iff in Hw as [? ?]. by eauto.
Qed.

(** X13: an empty default is no default: [{{NAME|default:}}] is left as it
    is, whether [NAME] is set or not. *)
Theorem empty_default_not_recognised
    (variables : gmap string string) (name : string) :
  is_name name = true →
  process_template ("{{" +:+ name +:+ "|default:}}") variables
  = "{{" +:+ name +:+ "|default:}}".
Proof.
  intros Hn. pose proof Hn as [Hne Hw]%is_name_inv.
  destruct (name_cons _ Hn) as (c & n & E & Hc & Hwn).
  assert (all_chars (not_char "{") (n +:+ "|default:}}") = true) as Hno
    by (by rewrite all_chars_app, word_no_brace).
  assert (span is_word (name +:+ "|default:}}") = (name, "|default:}}")) as Hspan
    by (by apply span_app_stop).
  unfold process_template.
  assert ("{{" +:+ name +:+ "|default:}}" = "{{" +:+ String c (n +:+ "|default:}}"))
    as Etag by (by rewrite E).
  rewrite Etag at 1.
  destruct (word_tag_not_a_block variables c _ Hc Hno) as [-> ->].
  assert (all_chars (not_char "{") (String c (n +:+ "|default:}}")) = true) as Hcw.
  { simpl. rewrite Hno, andb_true_r. unfold not_char.
    by rewrite Ascii.eqb_sym, (class_excludes is_word). }
  assert (pass_default variables ("{{" +:+ String c (n +:+ "|default:}}"))
          = "{{" +:+ String c (n +:+ "|default:}}")) as ->.
  { apply sub_tag_alone; [apply default_pattern_tokens|done|].
    rewrite match_at_default, <- Etag. unfold parse_default.
    rewrite strip_prefix_app_same, Hspan, Hne. done. }
  rewrite Etag.
  apply sub_tag_alone; [apply simple_pattern_tokens|done|].
  rewrite match_at_simple, <- Etag. unfold parse_simple.
  rewrite strip_prefix_app_same, Hspan, Hne. done.
Qed.

Lemma empty_default_not_recognised_witness :
  process_template ("{{" +:+ "PORT" +:+ "|default:}}") {[ "PORT" := "80" ]}
  = "{{" +:+ "PORT" +:+ "|default:}}".
Proof. apply empty_default_not_recognised. reflexivity. Defined.

(** X14: what the defaulted-variable pass brings in is read again by the
    plain-variable pass.  A defaulted variable with a default free of braces
    gives the plain-variable pass run on the value, or on the default when
    the variable is absent; so when the value is a reference [{{OTHER}}], the
    output is the value of [OTHER]. *)
Theorem default_value_is_rescanned
    (variables : gmap string string) (name dflt : string) :
  is_name name = true →
  is_empty dflt = false →
  all_chars (not_char "}") dflt = true → all_chars (not_char "{") dflt = true →
  process_template ("{{" +:+ name +:+ "|default:" +:+ dflt +:+ "}}") variables
  = pass_simple variables
      (match variables !! name with Some v => v | None => dflt end)
  ∧ (∀ other v,
       is_name other = true →
       variables !! name = Some ("{{" +:+ other +:+ "}}") →
       variables !! other = Some v →
       process_template ("{{" +:+ name +:+ "|default:" +:+ dflt +:+ "}}")
         variables
       = v).
Proof.
  intros Hn Hd1 Hd2 Hd3.
  destruct (name_cons _ Hn) as (c & n & E & Hc & Hwn).
  assert (process_template ("{{" +:+ name +:+ "|default:" +:+ dflt +:+ "}}")
            variables
          = pass_simple variables
              (match variables !! name with Some v => v | None => dflt end))
    as Hmain.
  { unfold process_template.
    assert ("{{" +:+ name +:+ "|default:" +:+ dflt +:+ "}}"
            = "{{" +:+ String c (n +:+ "|default:" +:+ dflt +:+ "}}")) as Etag
      by (by rewrite E).
    rewrite Etag.
    destruct (word_tag_not_a_block variables c
                (n +:+ "|default:" +:+ dflt +:+ "}}") Hc) as [-> ->].
    { by rewrite !all_chars_app, word_no_brace, Hd3. }
    rewrite <- Etag, <- (append_nil_r "}}").
    rewrite (pass_default_head _ _ name dflt "") by (by apply parse_default_tag).
    by rewrite pass_default_nil, append_nil_r, dict_get_lookup. }
  split; [done|]. intros other v Ho Hname Hother. rewrite Hmain, Hname.
  rewrite <- (append_nil_r "}}").
  rewrite (pass_simple_head _ _ other "") by (by apply parse_simple_tag).
  by rewrite pass_simple_nil, append_nil_r, dict_get_lookup, Hother.
Qed.

Lemma default_value_is_rescanned_witness :
  process_template ("{{" +:+ "X" +:+ "|default:" +:+ "none" +:+ "}}")
    {[ "X" := "{{Y}}"; "Y" := "z" ]}
  = "z".
Proof.
  destruct (default_value_is_rescanned {[ "X" := "{{Y}}"; "Y" := "z" ]}
              "X" "none" eq_refl eq_refl eq_refl eq_refl) as (_ & H).
  apply (H "Y" "z"); reflexivity.
Defined.

(** X15: a block nested in a block of the same name is closed by the inner
    closing tag.  Around a body without an opening brace, the result is the
    body when the variable is present and non-empty; otherwise the outer
    closing tag is left in the output. *)
Theorem same_name_nesting
    (variables : gmap string string) (name body : string) :
  is_name name = true → all_chars (not_char "{") body = true →
  process_template (nest [name; name] body) variables
  = if truthy (dict_get variables name "") then body else close_tag name.
Proof.
  intros Hn Hb. pose proof Hn as [_ Hw]%is_name_inv.
  assert (sweep_conditional variables (close_tag name) = close_tag name) as Hclose.
  { apply close_tag_unmatched; [apply block_pattern_tokens|done|].
    unfold conditional_pattern. by rewrite match_at_block. }
  assert (sweep_conditional variables (nest [name; name] body)
          = (if truthy (dict_get variables name "")
             then open_tag "#" name +:+ body else "") +:+ close_tag name) as H1.
  { assert (nest [name; name] body
            = open_tag "#" name +:+ (open_tag "#" name +:+ body)
              +:+ close_tag name +:+ close_tag name) as ->
      by (simpl nest; by rewrite !append_assoc).
    rewrite (sweep_conditional_head _ _ name (open_tag "#" name +:+ body)
               (close_tag name)); [by rewrite Hclose|].
    apply parse_block_tag; [done|].
    rewrite append_assoc, find_first_skip_open by done.
    change (close_tag name) with (String "{" ("{/" +:+ name +:+ "}}")) at 1 3.
    rewrite find_first_skip by done.
    change (String "{" ("{/" +:+ name +:+ "}}")) with (close_tag name).
    by rewrite find_first_here, !append_nil_r. }
  unfold process_template, pass_conditional.
  change (Nat.iter 3 ?f ?x) with (f (f (f x))).
  rewrite H1. destruct (truthy (dict_get variables name "")) eqn:Ht.
  - rewrite append_assoc.
    change (open_tag "#" name +:+ body +:+ close_tag name) with (nest [name] body).
    rewrite sweep_nest; [|done|constructor|apply not_elem_of_nil|done|done].
    simpl nest. rewrite sweep_plain by done.
    rewrite pass_inverted_no_token, pass_default_no_token, pass_simple_no_token;
      by try apply no_brace_no_token.
  - rewrite append_nil_l, !Hclose.
    assert (pass_inverted variables (close_tag name) = close_tag name) as ->.
    { unfold pass_inverted, sweep_inverted. simpl Nat.iter.
      rewrite !(close_tag_unmatched inverted_pattern); try done;
        try apply block_pattern_tokens;
        unfold inverted_pattern; by rewrite match_at_block. }
    assert (pass_default variables (close_tag name) = close_tag name) as ->.
    { apply close_tag_unmatched; [apply default_pattern_tokens|done|].
      by rewrite match_at_default. }
    apply close_tag_unmatched; [apply simple_pattern_tokens|done|].
    by rewrite match_at_simple.
Qed.

Lemma same_name_nesting_witness :
  process_template (nest ["A"; "A"] "x") ∅
  = if truthy (dict_get ∅ "A" "") then "x" else close_tag "A".
Proof. apply same_name_nesting; reflexivity. Defined.
